(** * airbrb backend: the in-memory service layer ([src/service.js])

    A shallow embedding of the service module: the three collections
    ([users], [listings], [bookings]), the identifier allocator, the business
    operations that run inside [resourceLock], the persistence path
    ([update], [save], [reset], [loadData]) and
    [getEmailFromAuthorization].

    Conventions of the embedding.
    - A JavaScript object used as a dictionary is a [gmap string _].  Keys are
      own properties only: names inherited from [Object.prototype] are not
      modelled.  [Object.keys] enumerates the keys in an order that depends on
      the key set alone.
    - Every exported operation is a function from the store to a new store
      and the way its promise settles.  [resourceLock] invokes its callback
      when it is called, before [lock.acquire] receives anything, so the body
      of an operation runs to completion inside the call.
    - Arguments have the types the callers give them: ids, emails and titles
      are strings, prices are numbers, free-form fields are [JsValue]s; an
      argument that can be [undefined] is an [option].
    - [Math.random], the clock and the outcome of each storage call are
      inputs of the operation that consumes them. *)

From Stdlib Require Import QArith Qround Ascii Lqa.
From stdpp Require Import gmap strings list fin_maps pretty.

Local Open Scope Z_scope.

(** ** JavaScript values *)

(** A number: [NaN] or a finite value.  The infinities never occur in the
    service and are left out. *)
Inductive number : Type :=
  | NaN
  | Num (q : Q).

(** The values a request can carry in a free-form field.  An object or an
    array is kept as the text of its JSON document. *)
Inductive JsValue : Type :=
  | JNull
  | JBool (b : bool)
  | JNumber (n : number)
  | JString (s : string)
  | JObject (json : string).

(** [ToBoolean], the test behind [if (x)]. *)
Definition number_truthy (n : number) : bool :=
  match n with
  | NaN => false
  | Num q => negb (Qeq_bool q 0)
  end.

Definition truthy (v : JsValue) : bool :=
  match v with
  | JNull => false
  | JBool b => b
  | JNumber n => number_truthy n
  | JString s => negb (String.eqb s EmptyString)
  | JObject _ => true
  end.

(** [isNaN] on a number, and [x < 0]. *)
Definition isNaN (n : number) : bool :=
  match n with
  | NaN => true
  | Num _ => false
  end.

Definition number_negative (n : number) : bool :=
  match n with
  | NaN => false
  | Num q => negb (Qle_bool 0 q)
  end.

(** SameValueZero, the comparison of [Array.prototype.includes]: values of
    different types are never the same, [NaN] is the same as [NaN].  Two
    objects are the same only when they are one object, which a list of
    documents cannot express; they compare as different. *)
Definition SameValueZero (x y : JsValue) : bool :=
  match x, y with
  | JNull, JNull => true
  | JBool a, JBool b => Bool.eqb a b
  | JNumber NaN, JNumber NaN => true
  | JNumber (Num p), JNumber (Num q) => Qeq_bool p q
  | JString s, JString t => String.eqb s t
  | _, _ => false
  end.

Definition includes (l : list JsValue) (x : JsValue) : bool :=
  existsb (SameValueZero x) l.

(** [Object.keys]. *)
Definition Object_keys {V : Type} (o : gmap string V) : list string :=
  (map_to_list o).*1.

(** ** Identifier allocator *)

Definition Math_floor (x : Q) : Z := Qfloor x.
Definition Math_round (x : Q) : Z := Qfloor (x + (1 # 2)).

(** [randNum max], given the value [random] that [Math.random()] returns. *)
Definition randNum (max : Z) (random : Q) : Z :=
  Math_round
    (random * inject_Z (max - Math_floor (inject_Z max / 10))
     + inject_Z (Math_floor (inject_Z max / 10))).

(** [R.toString()] for an integer-valued number. *)
Definition Number_toString (R : Z) : string := pretty R.

Definition default_max : Z := 999999999.

(** [generateId currentList max].  [draws] lists the values [Math.random()]
    returns, in order; every evaluation of [randNum] takes the next one.
    The result is [None] when the draws run out before the loop ends. *)
Fixpoint generateId (currentList : list JsValue) (max : Z) (draws : list Q)
  : option string :=
  match draws with
  | [] => None
  | random :: rest =>
      let R := randNum max random in
      if includes currentList (JNumber (Num (inject_Z R)))
      then generateId currentList max rest
      else Some (Number_toString R)
  end.

(** [parseInt(s, 10)]: leading white space is skipped, one sign is read, then
    the longest run of decimal digits; without a digit the result is [NaN].
    White space is the ASCII part of the set JavaScript skips. *)
Definition is_white_space (c : ascii) : bool :=
  let n := N_of_ascii c in
  ((9 <=? n) && (n <=? 13) || (n =? 32))%N.

Definition digit_of (c : ascii) : option Z :=
  let n := N_of_ascii c in
  if ((48 <=? n) && (n <=? 57))%N then Some (Z.of_N n - 48) else None.

Fixpoint skip_white_space (s : string) : string :=
  match s with
  | String c rest => if is_white_space c then skip_white_space rest else s
  | EmptyString => s
  end.

Fixpoint parse_digits (s : string) (acc : option Z) : option Z :=
  match s with
  | String c rest =>
      match digit_of c with
      | Some d => parse_digits rest (Some (10 * default 0 acc + d))
      | None => acc
      end
  | EmptyString => acc
  end.

Definition parseInt (s : string) : number :=
  let magnitude (sign : Z) (t : string) :=
    match parse_digits t None with
    | Some n => Num (inject_Z (sign * n))
    | None => NaN
    end in
  match skip_white_space s with
  | String "-"%char rest => magnitude (-1) rest
  | String "+"%char rest => magnitude 1 rest
  | t => magnitude 1 t
  end.

(** ** State *)

Module User.
Record t : Type := mk
  { name : string;
    password : string;
    sessionActive : bool }.

Definition set_sessionActive (v : bool) (u : t) : t :=
  mk (name u) (password u) v.
End User.

Module Listing.
Record t : Type := mk
  { title : string;
    owner : string;
    address : JsValue;
    price : number;
    thumbnail : JsValue;
    metadata : JsValue;
    reviews : list JsValue;
    availability : list JsValue;
    published : bool;
    postedOn : option string }.

Definition set_title (v : string) (l : t) : t :=
  mk v (owner l) (address l) (price l) (thumbnail l) (metadata l)
     (reviews l) (availability l) (published l) (postedOn l).
Definition set_address (v : JsValue) (l : t) : t :=
  mk (title l) (owner l) v (price l) (thumbnail l) (metadata l)
     (reviews l) (availability l) (published l) (postedOn l).
Definition set_price (v : number) (l : t) : t :=
  mk (title l) (owner l) (address l) v (thumbnail l) (metadata l)
     (reviews l) (availability l) (published l) (postedOn l).
Definition set_thumbnail (v : JsValue) (l : t) : t :=
  mk (title l) (owner l) (address l) (price l) v (metadata l)
     (reviews l) (availability l) (published l) (postedOn l).
Definition set_metadata (v : JsValue) (l : t) : t :=
  mk (title l) (owner l) (address l) (price l) (thumbnail l) v
     (reviews l) (availability l) (published l) (postedOn l).
Definition set_reviews (v : list JsValue) (l : t) : t :=
  mk (title l) (owner l) (address l) (price l) (thumbnail l) (metadata l)
     v (availability l) (published l) (postedOn l).
Definition set_availability (v : list JsValue) (l : t) : t :=
  mk (title l) (owner l) (address l) (price l) (thumbnail l) (metadata l)
     (reviews l) v (published l) (postedOn l).
Definition set_published (v : bool) (l : t) : t :=
  mk (title l) (owner l) (address l) (price l) (thumbnail l) (metadata l)
     (reviews l) (availability l) v (postedOn l).
Definition set_postedOn (v : option string) (l : t) : t :=
  mk (title l) (owner l) (address l) (price l) (thumbnail l) (metadata l)
     (reviews l) (availability l) (published l) v.
End Listing.

Module Booking.
Record t : Type := mk
  { owner : string;
    dateRange : JsValue;
    totalPrice : number;
    listingId : string;
    status : string }.

Definition set_status (v : string) (b : t) : t :=
  mk (owner b) (dateRange b) (totalPrice b) (listingId b) v.
End Booking.

(** The three collections of the module: [users] by email, [listings] and
    [bookings] by id. *)
Record Store : Type := mkStore
  { users : gmap string User.t;
    listings : gmap string Listing.t;
    bookings : gmap string Booking.t }.

Definition set_users (v : gmap string User.t) (s : Store) : Store :=
  mkStore v (listings s) (bookings s).
Definition set_listings (v : gmap string Listing.t) (s : Store) : Store :=
  mkStore (users s) v (bookings s).
Definition set_bookings (v : gmap string Booking.t) (s : Store) : Store :=
  mkStore (users s) (listings s) v.

Definition empty_store : Store := mkStore ∅ ∅ ∅.

(** ** Errors and promises *)

Inductive Error : Type :=
  | InputError (message : string)
  | AccessError (message : string)
  | TypeError
  | PlainError (message : string).

(** How the promise of an operation settles.  [Pending] is a promise that
    has not settled with the supplied draws of [Math.random]. *)
Inductive Settled (A : Type) : Type :=
  | Resolve (a : A)
  | Reject (e : Error)
  | Pending.
Arguments Resolve {A} a.
Arguments Reject {A} e.
Arguments Pending {A}.

Definition is_rejected {A : Type} (p : Settled A) : bool :=
  match p with Reject _ => true | _ => false end.

(** The signed token; of its content only the [email] claim is kept. *)
Inductive Token : Type := jwt_sign (email : string).

(** An optional string that passes [if (x)]: defined and not empty.  [!x]
    holds of the others. *)
Definition provided (x : option string) : option string :=
  match x with
  | Some s => if String.eqb s EmptyString then None else Some s
  | None => None
  end.

(** [x in o]. *)
Definition has_key {V : Type} (x : string) (o : gmap string V) : bool :=
  bool_decide (is_Some (o !! x)).

Definition newListingId (s : Store) (draws : list Q) : option string :=
  generateId (JString <$> Object_keys (listings s)) default_max draws.
Definition newBookingId (s : Store) (draws : list Q) : option string :=
  generateId (JString <$> Object_keys (bookings s)) default_max draws.

(** ** Auth functions *)

Definition login (email password : option string) (s : Store)
  : Store * Settled Token :=
  match provided email with
  | None => (s, Reject (InputError "Must provide an email for user login"))
  | Some email =>
  match provided password with
  | None => (s, Reject (InputError "Must provide a password for user login"))
  | Some password =>
  match users s !! email with
  | Some u =>
      if String.eqb (User.password u) password then
        (* the [reject] that follows [resolve] finds the promise settled *)
        (set_users (<[email := User.set_sessionActive true u]> (users s)) s,
         Resolve (jwt_sign email))
      else (s, Reject (InputError "Invalid email or password"))
  | None => (s, Reject (InputError "Invalid email or password"))
  end end end.

Definition logout (email : string) (s : Store) : Store * Settled unit :=
  match users s !! email with
  | Some u =>
      (set_users (<[email := User.set_sessionActive false u]> (users s)) s,
       Resolve tt)
  | None => (s, Reject TypeError)
  end.

Definition register (email password name : option string) (s : Store)
  : Store * Settled Token :=
  match provided email with
  | None => (s, Reject (InputError "Must provide an email for user registration"))
  | Some email =>
  match provided password with
  | None => (s, Reject (InputError "Must provide a password for user registration"))
  | Some password =>
  match provided name with
  | None => (s, Reject (InputError "Must provide a name for user registration"))
  | Some name =>
  if has_key email (users s) then
    (s, Reject (InputError "Email address already registered"))
  else
    (set_users (<[email := User.mk name password true]> (users s)) s,
     Resolve (jwt_sign email))
  end end end.

(** ** Listing functions *)

Definition newListingPayload (title owner : string) (address : JsValue)
    (price : number) (thumbnail metadata : JsValue) : Listing.t :=
  Listing.mk title owner address price thumbnail metadata [] [] false None.

Definition assertOwnsListing (email listingId : string) (s : Store)
  : Settled unit :=
  match listings s !! listingId with
  | None => Reject (InputError "Invalid listing ID")
  | Some l =>
      if String.eqb (Listing.owner l) email then Resolve tt
      else Reject (InputError "User does not own this Listing")
  end.

Definition assertOwnsBooking (email bookingId : string) (s : Store)
  : Settled unit :=
  match bookings s !! bookingId with
  | None => Reject (InputError "Invalid booking ID")
  | Some b =>
      if String.eqb (Booking.owner b) email then Resolve tt
      else Reject (InputError "User does not own this booking")
  end.

(** The callback of [Object.keys(listings).find(...)] in [addListing]. *)
Definition has_title (s : Store) (title key : string) : bool :=
  match listings s !! key with
  | Some l => String.eqb (Listing.title l) title
  | None => false
  end.

Definition addListing (title : option string) (email : string)
    (address : option JsValue) (price : option number)
    (thumbnail metadata : option JsValue) (draws : list Q) (s : Store)
  : Store * Settled string :=
  match title with
  | None => (s, Reject (InputError "Must provide a title for new listing"))
  | Some title =>
  match find (has_title s title) (Object_keys (listings s)) with
  | Some _ => (s, Reject (InputError "A listing with this title already exists"))
  | None =>
  match address with
  | None => (s, Reject (InputError "Must provide an address for new listing"))
  | Some address =>
  match price with
  | None => (s, Reject (InputError "Must provide a valid price for new listing"))
  | Some price =>
  if isNaN price then
    (s, Reject (InputError "Must provide a valid price for new listing"))
  else
  match thumbnail with
  | None => (s, Reject (InputError "Must provide a thumbnail for new listing"))
  | Some thumbnail =>
  match metadata with
  | None => (s, Reject (InputError "Must provide property details for this listing"))
  | Some metadata =>
  match newListingId s draws with
  | None => (s, Pending)
  | Some id =>
      (set_listings
         (<[id := newListingPayload title email address price thumbnail metadata]>
            (listings s)) s,
       Resolve id)
  end end end end end end end.

Definition getListingDetails (listingId : string) (s : Store)
  : Settled (option Listing.t) :=
  Resolve (listings s !! listingId).

Module ListingView.
Record t : Type := mk
  { id : number;
    title : string;
    owner : string;
    address : JsValue;
    thumbnail : JsValue;
    price : number;
    reviews : list JsValue }.
End ListingView.

(** The callback of [Object.keys(listings).map(...)] in [getAllListings]. *)
Definition listing_view (key : string) (l : Listing.t) : ListingView.t :=
  ListingView.mk (parseInt key) (Listing.title l) (Listing.owner l)
    (Listing.address l) (Listing.thumbnail l) (Listing.price l)
    (Listing.reviews l).

Definition getAllListings (s : Store) : Settled (list ListingView.t) :=
  Resolve
    (omap (λ key, listing_view key <$> listings s !! key)
       (Object_keys (listings s))).

(** [listings[listingId].field = value]: a [TypeError] when the listing is
    absent.  The second component tells whether the statement completed. *)
Definition assign (listingId : string) (f : Listing.t → Listing.t)
    (ls : gmap string Listing.t) : gmap string Listing.t * bool :=
  match ls !! listingId with
  | Some l => (<[listingId := f l]> ls, true)
  | None => (ls, false)
  end.

(** A sequence of guarded assignments, stopped by the first that throws. *)
Fixpoint assign_all (listingId : string)
    (fs : list (option (Listing.t → Listing.t)))
    (ls : gmap string Listing.t) : gmap string Listing.t * bool :=
  match fs with
  | [] => (ls, true)
  | None :: rest => assign_all listingId rest ls
  | Some f :: rest =>
      match assign listingId f ls with
      | (ls', true) => assign_all listingId rest ls'
      | (ls', false) => (ls', false)
      end
  end.

(** [if (x) listings[listingId].field = x], as an optional assignment. *)
Definition when_truthy {A : Type} (test : A → bool) (x : option A)
    (set : A → Listing.t → Listing.t) : option (Listing.t → Listing.t) :=
  match x with
  | Some v => if test v then Some (set v) else None
  | None => None
  end.

Definition updateListing (listingId : string) (title : option string)
    (address thumbnail : option JsValue) (price : option number)
    (metadata : option JsValue) (s : Store) : Store * Settled unit :=
  let '(ls, completed) :=
    assign_all listingId
      [ when_truthy truthy address Listing.set_address;
        when_truthy (λ t, negb (String.eqb t EmptyString)) title Listing.set_title;
        when_truthy truthy thumbnail Listing.set_thumbnail;
        when_truthy number_truthy price Listing.set_price;
        when_truthy truthy metadata Listing.set_metadata ]
      (listings s) in
  (set_listings ls s, if completed then Resolve tt else Reject TypeError).

Definition removeListing (listingId : string) (s : Store)
  : Store * Settled unit :=
  (set_listings (delete listingId (listings s)) s, Resolve tt).

(** [now] is the text of [new Date().toISOString()] at the call. *)
Definition publishListing (listingId : string)
    (availability : option (list JsValue)) (now : string) (s : Store)
  : Store * Settled unit :=
  match availability with
  | None => (s, Reject (InputError "Must provide listing availability"))
  | Some availability =>
      match listings s !! listingId with
      | None => (s, Reject TypeError)
      | Some l =>
          if Listing.published l then
            (s, Reject (InputError "This listing is already published"))
          else
            (set_listings
               (<[listingId :=
                    Listing.set_postedOn (Some now)
                      (Listing.set_published true
                         (Listing.set_availability availability l))]>
                  (listings s)) s,
             Resolve tt)
      end
  end.

Definition unpublishListing (listingId : string) (s : Store)
  : Store * Settled unit :=
  match listings s !! listingId with
  | None => (s, Reject TypeError)
  | Some l =>
      if negb (Listing.published l) then
        (s, Reject (InputError "This listing is already unpublished"))
      else
        (set_listings
           (<[listingId :=
                Listing.set_postedOn None
                  (Listing.set_published false
                     (Listing.set_availability [] l))]>
              (listings s)) s,
         Resolve tt)
  end.

Definition leaveListingReview (email listingId bookingId : string)
    (review : option JsValue) (s : Store) : Store * Settled unit :=
  match bookings s !! bookingId with
  | None => (s, Reject (InputError "Invalid booking ID"))
  | Some b =>
  match listings s !! listingId with
  | None => (s, Reject (InputError "Invalid listing ID"))
  | Some l =>
  if negb (String.eqb (Booking.owner b) email) then
    (s, Reject (InputError "User has not stayed at this listing"))
  else if negb (String.eqb (Booking.listingId b) listingId) then
    (s, Reject (InputError "This booking is not associated with this listing ID"))
  else
  match review with
  | None => (s, Reject (InputError "Must provide review contents"))
  | Some review =>
      (set_listings
         (<[listingId := Listing.set_reviews (Listing.reviews l ++ [review]) l]>
            (listings s)) s,
       Resolve tt)
  end end end.

(** ** Booking functions *)

Definition newBookingPayload (owner : string) (dateRange : JsValue)
    (totalPrice : number) (listingId : string) : Booking.t :=
  Booking.mk owner dateRange totalPrice listingId "pending".

Definition makeNewBooking (owner : string) (dateRange : option JsValue)
    (totalPrice : option number) (listingId : string) (draws : list Q)
    (s : Store) : Store * Settled string :=
  match listings s !! listingId with
  | None => (s, Reject (InputError "Invalid listing ID"))
  | Some l =>
  match dateRange with
  | None => (s, Reject (InputError "Must provide a valid date range for the booking"))
  | Some dateRange =>
  match totalPrice with
  | None => (s, Reject (InputError "Must provide a valid total price for this booking"))
  | Some totalPrice =>
  if number_negative totalPrice || isNaN totalPrice then
    (s, Reject (InputError "Must provide a valid total price for this booking"))
  else if String.eqb (Listing.owner l) owner then
    (s, Reject (InputError "Cannot make bookings for your own listings"))
  else if negb (Listing.published l) then
    (s, Reject (InputError "Cannot make a booking for an unpublished listing"))
  else
  match newBookingId s draws with
  | None => (s, Pending)
  | Some id =>
      (set_bookings
         (<[id := newBookingPayload owner dateRange totalPrice listingId]>
            (bookings s)) s,
       Resolve id)
  end end end end.

Module BookingView.
Record t : Type := mk
  { id : number;
    owner : string;
    dateRange : JsValue;
    totalPrice : number;
    listingId : string;
    status : string }.
End BookingView.

Definition booking_view (key : string) (b : Booking.t) : BookingView.t :=
  BookingView.mk (parseInt key) (Booking.owner b) (Booking.dateRange b)
    (Booking.totalPrice b) (Booking.listingId b) (Booking.status b).

Definition getAllBookings (s : Store) : Settled (list BookingView.t) :=
  Resolve
    (omap (λ key, booking_view key <$> bookings s !! key)
       (Object_keys (bookings s))).

Definition removeBooking (bookingId : string) (s : Store)
  : Store * Settled unit :=
  (set_bookings (delete bookingId (bookings s)) s, Resolve tt).

(** The callback of [Object.keys(listings).find(...)] in [acceptBooking] and
    [declineBooking]: the key is the booking's listing and [owner] owns it. *)
Definition is_listing_of (s : Store) (b : Booking.t) (owner key : string)
  : bool :=
  String.eqb key (Booking.listingId b)
  && match listings s !! key with
     | Some l => String.eqb (Listing.owner l) owner
     | None => false
     end.

Definition acceptBooking (owner bookingId : string) (s : Store)
  : Store * Settled unit :=
  match bookings s !! bookingId with
  | None => (s, Reject (InputError "Invalid booking ID"))
  | Some b =>
  match find (is_listing_of s b owner) (Object_keys (listings s)) with
  | None =>
      (s, Reject (InputError "Cannot accept bookings for a listing that isn't yours"))
  | Some _ =>
  if String.eqb (Booking.status b) "accepted" then
    (s, Reject (InputError "Booking has already been accepted"))
  else if String.eqb (Booking.status b) "declined" then
    (s, Reject (InputError "Booking has already been declined"))
  else
    (set_bookings (<[bookingId := Booking.set_status "accepted" b]> (bookings s)) s,
     Resolve tt)
  end end.

Definition declineBooking (owner bookingId : string) (s : Store)
  : Store * Settled unit :=
  match bookings s !! bookingId with
  | None => (s, Reject (InputError "Invalid booking ID"))
  | Some b =>
  match find (is_listing_of s b owner) (Object_keys (listings s)) with
  | None =>
      (s, Reject (InputError "Cannot accept bookings for a listing that isn't yours"))
  | Some _ =>
  if String.eqb (Booking.status b) "declined" then
    (s, Reject (InputError "Booking has already been declined"))
  else if String.eqb (Booking.status b) "accepted" then
    (s, Reject (InputError "Booking has already been accepted"))
  else
    (set_bookings (<[bookingId := Booking.set_status "declined" b]> (bookings s)) s,
     Resolve tt)
  end end.

(** ** Persistence *)

(** What the two backends hold: the value under the key [airbrb_data] of the
    remote store and the document in [./database.json].  A document is
    identified with the snapshot it serialises. *)
Record Storage : Type := mkStorage
  { redis_airbrb_data : option Store;
    database_json : option Store }.

(** Whether a storage call returns or throws. *)
Inductive Call : Type := Returns | Throws.

(** The storage calls one [update] can make: the one in the [try] block
    ([redis.set] with credentials, [fs.writeFileSync] without) and the
    [fs.writeFileSync] of the [catch] block.  A call that throws leaves its
    backend as it was. *)
Record Calls : Type := mkCalls
  { in_try : Call;
    in_catch : Call }.

(** The [catch] block of [update]: one more write of the document. *)
Definition write_fallback (snapshot : Store) (calls : Calls) (st : Storage)
  : Storage * Settled unit :=
  match in_catch calls with
  | Returns => (mkStorage (redis_airbrb_data st) (Some snapshot), Resolve tt)
  | Throws => (st, Reject (PlainError "Writing to storage failed"))
  end.

Definition update (hasRedisCredentials : bool) (snapshot : Store)
    (calls : Calls) (st : Storage) : Storage * Settled unit :=
  if hasRedisCredentials then
    match in_try calls with
    | Returns => (mkStorage (Some snapshot) (database_json st), Resolve tt)
    | Throws => write_fallback snapshot calls st
    end
  else
    match in_try calls with
    | Returns => (mkStorage (redis_airbrb_data st) (Some snapshot), Resolve tt)
    | Throws => write_fallback snapshot calls st
    end.

(** The process: the collections in memory and the two backends. *)
Record Process : Type := mkProcess
  { memory : Store;
    storage : Storage }.

(** [save] hands the three collections to [update]; nothing runs between
    the call and the storage calls it leads to. *)
Definition save (hasRedisCredentials : bool) (calls : Calls) (p : Process)
  : Process * Settled unit :=
  let '(st, settled) := update hasRedisCredentials (memory p) calls (storage p) in
  (mkProcess (memory p) st, settled).

(** [await update({}, {}, {})] first; the three assignments follow only when
    the awaited promise resolves. *)
Definition reset (hasRedisCredentials : bool) (calls : Calls) (p : Process)
  : Process * Settled unit :=
  let '(st, settled) := update hasRedisCredentials empty_store calls (storage p) in
  match settled with
  | Resolve _ => (mkProcess empty_store st, Resolve tt)
  | _ => (mkProcess (memory p) st, settled)
  end.

(** ** The exported operations as a transition system *)

(** A call of an exported operation on the collections, with its arguments
    and the inputs it consumes. *)
Inductive Op : Type :=
  | Login (email password : option string)
  | Logout (email : string)
  | Register (email password name : option string)
  | AddListing (title : option string) (email : string)
      (address : option JsValue) (price : option number)
      (thumbnail metadata : option JsValue) (draws : list Q)
  | UpdateListing (listingId : string) (title : option string)
      (address thumbnail : option JsValue) (price : option number)
      (metadata : option JsValue)
  | RemoveListing (listingId : string)
  | PublishListing (listingId : string) (availability : option (list JsValue))
      (now : string)
  | UnpublishListing (listingId : string)
  | LeaveListingReview (email listingId bookingId : string)
      (review : option JsValue)
  | MakeNewBooking (owner : string) (dateRange : option JsValue)
      (totalPrice : option number) (listingId : string) (draws : list Q)
  | RemoveBooking (bookingId : string)
  | AcceptBooking (owner bookingId : string)
  | DeclineBooking (owner bookingId : string).

(** The store after an operation on the collections. *)
Definition apply (op : Op) (s : Store) : Store :=
  match op with
  | Login e pw => (login e pw s).1
  | Logout e => (logout e s).1
  | Register e pw n => (register e pw n s).1
  | AddListing t e a p th m d => (addListing t e a p th m d s).1
  | UpdateListing i t a th p m => (updateListing i t a th p m s).1
  | RemoveListing i => (removeListing i s).1
  | PublishListing i av now => (publishListing i av now s).1
  | UnpublishListing i => (unpublishListing i s).1
  | LeaveListingReview e i b r => (leaveListingReview e i b r s).1
  | MakeNewBooking o d t i dr => (makeNewBooking o d t i dr s).1
  | RemoveBooking i => (removeBooking i s).1
  | AcceptBooking o i => (acceptBooking o i s).1
  | DeclineBooking o i => (declineBooking o i s).1
  end.

(** What a client can ask of the process: an operation on the collections,
    [save] or [reset], the last two with the outcome of their storage calls. *)
Inductive Request : Type :=
  | Operation (op : Op)
  | Save (calls : Calls)
  | Reset (calls : Calls).

Definition exec (hasRedisCredentials : bool) (req : Request) (p : Process)
  : Process :=
  match req with
  | Operation op => mkProcess (apply op (memory p)) (storage p)
  | Save calls => (save hasRedisCredentials calls p).1
  | Reset calls => (reset hasRedisCredentials calls p).1
  end.

(** A run of requests, first to last. *)
Definition run (hasRedisCredentials : bool) (reqs : list Request) (p : Process)
  : Process :=
  foldl (λ q req, exec hasRedisCredentials req q) p reqs.

(** The process starts with three empty collections, whatever the backends
    hold; a state is reachable when a run of requests leads to it.  (A
    snapshot loaded at start is one that an earlier process saved.) *)
Inductive reachable (hasRedisCredentials : bool) : Process → Prop :=
  | reachable_start (st : Storage) :
      reachable hasRedisCredentials (mkProcess empty_store st)
  | reachable_exec (req : Request) (p : Process) :
      reachable hasRedisCredentials p →
      reachable hasRedisCredentials (exec hasRedisCredentials req p).

(** * Notions used in the statements *)

(** No two listings of the store share a title. *)
Definition titles_unique (s : Store) : Prop :=
  ∀ id1 id2 l1 l2,
    listings s !! id1 = Some l1 → listings s !! id2 = Some l2 →
    Listing.title l1 = Listing.title l2 → id1 = id2.

Definition terminal (b : Booking.t) : Prop :=
  Booking.status b = "accepted" ∨ Booking.status b = "declined".

(** The two rejections that report a terminal state. *)
Definition terminal_state_conflict (e : Error) : Prop :=
  e = InputError "Booking has already been accepted"
  ∨ e = InputError "Booking has already been declined".

(** The rejection a terminal booking answers with, by its status. *)
Definition already (b : Booking.t) : Error :=
  if String.eqb (Booking.status b) "accepted"
  then InputError "Booking has already been accepted"
  else InputError "Booking has already been declined".

Definition not_yours : Error :=
  InputError "Cannot accept bookings for a listing that isn't yours".

(** [owner] owns the listing the booking refers to, and that listing is in
    the store. *)
Definition owns_listing_of (s : Store) (owner : string) (b : Booking.t) : Prop :=
  ∃ l, listings s !! Booking.listingId b = Some l ∧ Listing.owner l = owner.

(** What holds of a listing in every reachable state: it is published
    exactly when [postedOn] is set, and it has availability only when it is
    published. *)
Definition consistent (l : Listing.t) : Prop :=
  (Listing.published l = true ↔ Listing.postedOn l ≠ None)
  ∧ (Listing.availability l ≠ [] → Listing.published l = true).

Definition listings_consistent (s : Store) : Prop :=
  map_Forall (λ _ l, consistent l) (listings s).

(** A function on listings that leaves the three fields of the group. *)
Definition keeps_group (f : Listing.t → Listing.t) : Prop :=
  ∀ l, Listing.published (f l) = Listing.published l
       ∧ Listing.postedOn (f l) = Listing.postedOn l
       ∧ Listing.availability (f l) = Listing.availability l.

(** The backend that takes the write of an [update] that resolves: the
    remote store when [redis.set] returns, the local file otherwise. *)
Definition written (hasRedisCredentials : bool) (calls : Calls) (st : Storage)
  : option Store :=
  match hasRedisCredentials, in_try calls with
  | true, Returns => redis_airbrb_data st
  | _, _ => database_json st
  end.

(** A listing with the fields that no enumeration reads blanked out. *)
Definition scrub (l : Listing.t) : Listing.t :=
  Listing.set_postedOn None
    (Listing.set_published false
       (Listing.set_availability []
          (Listing.set_metadata JNull l))).

(** The listing [listingId] is published, if it is in the store at all. *)
Definition published_or_absent (listingId : string) (s : Store) : Prop :=
  map_Forall (λ key l, key = listingId → Listing.published l = true)
    (listings s).

(** The operation is no [unpublishListing] of [listingId] and no creation
    that resolves with that id. *)
Definition leaves_published (listingId : string) (req : Request) (s : Store)
  : Prop :=
  match req with
  | Operation (UnpublishListing i) => i ≠ listingId
  | Operation (AddListing t e a p th m draws) =>
      (addListing t e a p th m draws s).2 ≠ Resolve listingId
  | _ => True
  end.

Fixpoint undisturbed (hasRedisCredentials : bool) (listingId : string)
    (reqs : list Request) (p : Process) : Prop :=
  match reqs with
  | [] => True
  | req :: rest =>
      leaves_published listingId req (memory p)
      ∧ undisturbed hasRedisCredentials listingId rest
          (exec hasRedisCredentials req p)
  end.

(** * Sample stores and runs *)

Definition fresh_process : Process := mkProcess empty_store (mkStorage None None).

(** A store with one listing, under the id that a draw of one half gives. *)
Definition one_listing : Store :=
  (addListing (Some "Loft") "a@x.com" (Some (JString "1 Rd"))
     (Some (Num (inject_Z 100))) (Some (JString "t.png")) (Some (JObject "{}"))
     [1 # 2] empty_store).1.

(** A second creation while [Math.random()] returns one half again. *)
Definition second_creation : Store * Settled string :=
  addListing (Some "Den") "b@x.com" (Some (JString "2 Rd"))
    (Some (Num (inject_Z 80))) (Some (JString "u.png")) (Some (JObject "{}"))
    [1 # 2] one_listing.

(** Two listings, created one after the other, and the second then renamed
    to the title of the first. *)
Definition two_listings : Store :=
  (addListing (Some "Den") "b@x.com" (Some (JString "2 Rd"))
     (Some (Num (inject_Z 80))) (Some (JString "u.png")) (Some (JObject "{}"))
     [1 # 4] one_listing).1.

Definition renamed_listings : Store :=
  (updateListing "324999999" (Some "Loft") None None None None two_listings).1.

(** A listing of a@x.com is published, b@x.com books it and a@x.com accepts
    the booking. *)
Definition booking_accepted : list Request :=
  Operation <$>
  [ AddListing (Some "Loft") "a@x.com" (Some (JString "1 Rd"))
      (Some (Num (inject_Z 100))) (Some (JString "t.png"))
      (Some (JObject "{}")) [1 # 2];
    PublishListing "549999999" (Some [JObject "[1,2]"])
      "2024-01-01T00:00:00.000Z";
    MakeNewBooking "b@x.com" (Some (JObject "[1,2]"))
      (Some (Num (inject_Z 200))) "549999999" [1 # 4];
    AcceptBooking "a@x.com" "324999999" ].

(** A listing is created and published with an empty availability. *)
Definition published_empty : list Request :=
  Operation <$>
  [ AddListing (Some "Loft") "a@x.com" (Some (JString "1 Rd"))
      (Some (Num (inject_Z 100))) (Some (JString "t.png"))
      (Some (JObject "{}")) [1 # 2];
    PublishListing "549999999" (Some []) "2024-01-01T00:00:00.000Z" ].

(** Two runs that agree on what the enumerations show: in the second the
    user has another password, the listing other metadata, and the listing
    is published. *)
Definition plain_run : list Request :=
  Operation <$>
  [ Register (Some "a@x.com") (Some "pw") (Some "Ann");
    AddListing (Some "Loft") "a@x.com" (Some (JString "1 Rd"))
      (Some (Num (inject_Z 100))) (Some (JString "t.png"))
      (Some (JObject "{}")) [1 # 2] ].

Definition other_run : list Request :=
  Operation <$>
  [ Register (Some "a@x.com") (Some "hunter2") (Some "Ann");
    AddListing (Some "Loft") "a@x.com" (Some (JString "1 Rd"))
      (Some (Num (inject_Z 100))) (Some (JString "t.png"))
      (Some (JObject "[3]")) [1 # 2];
    PublishListing "549999999" (Some [JObject "[1,2]"])
      "2024-01-01T00:00:00.000Z" ].

(** The price of the listing is changed and a user logs in. *)
Definition after_publish : list Request :=
  Operation <$>
  [ UpdateListing "549999999" None None None (Some (Num (inject_Z 120))) None;
    Login (Some "a@x.com") (Some "pw") ].

(** * Loading at start *)

(** The data a backend returns: an object in which each of the three
    collections can be missing. *)
Record Document : Type := mkDocument
  { doc_users : option (gmap string User.t);
    doc_listings : option (gmap string Listing.t);
    doc_bookings : option (gmap string Booking.t) }.

(** What a read of a backend gives: it throws, or it returns data, [None]
    standing for [null]. *)
Inductive Read : Type :=
  | ReadThrows
  | ReadReturns (data : option Document).

(** [x || {}]. *)
Definition or_empty {V : Type} (x : option (gmap string V)) : gmap string V :=
  default ∅ x.

(** The three assignments [users = data.users || {}], ... *)
Definition assign_document (d : Document) : Store :=
  mkStore (or_empty (doc_users d)) (or_empty (doc_listings d))
    (or_empty (doc_bookings d)).

(** The second half of [loadData]: [fs.readFileSync] and [JSON.parse] throw,
    or give the parsed document; reading a collection of [null] throws as
    well.  Whatever is thrown is caught and the collections stay. *)
Definition load_file (file_read : Read) (s : Store) : Store :=
  match file_read with
  | ReadReturns (Some parsedData) => assign_document parsedData
  | ReadReturns None => s
  | ReadThrows => s
  end.

(** [loadData], given what [redis.get] and the reading of the file give.
    It runs when the module is loaded, before any operation. *)
Definition loadData (hasRedisCredentials : bool) (redis_get file_read : Read)
    (s : Store) : Store :=
  if hasRedisCredentials then
    match redis_get with
    | ReadReturns (Some data) => assign_document data
    | ReadReturns None => load_file file_read s
    | ReadThrows => load_file file_read s
    end
  else load_file file_read s.

(** The document that [update] writes for a snapshot. *)
Definition document_of (s : Store) : Document :=
  mkDocument (Some (users s)) (Some (listings s)) (Some (bookings s)).

(** What the reads give on a storage: [redis.get] returns [null] for a key
    that was never set, or throws when the remote store cannot be reached;
    reading a file that does not exist throws. *)
Definition redis_get_of (redis_reachable : bool) (st : Storage) : Read :=
  if redis_reachable then ReadReturns (document_of <$> redis_airbrb_data st)
  else ReadThrows.

Definition file_read_of (st : Storage) : Read :=
  match database_json st with
  | Some s => ReadReturns (Some (document_of s))
  | None => ReadThrows
  end.

(** A process that starts on a storage. *)
Definition start (hasRedisCredentials redis_reachable : bool) (st : Storage)
  : Process :=
  mkProcess
    (loadData hasRedisCredentials (redis_get_of redis_reachable st)
       (file_read_of st) empty_store)
    st.

(** * Authorization *)




(** * Further notions *)

(** How the promise of an operation settles, its value left out. *)
Definition forget {A : Type} (p : Settled A) : Settled unit :=
  match p with
  | Resolve _ => Resolve tt
  | Reject e => Reject e
  | Pending => Pending
  end.

Definition settles (op : Op) (s : Store) : Settled unit :=
  match op with
  | Login e pw => forget (login e pw s).2
  | Logout e => forget (logout e s).2
  | Register e pw n => forget (register e pw n s).2
  | AddListing t e a p th m d => forget (addListing t e a p th m d s).2
  | UpdateListing i t a th p m => forget (updateListing i t a th p m s).2
  | RemoveListing i => forget (removeListing i s).2
  | PublishListing i av now => forget (publishListing i av now s).2
  | UnpublishListing i => forget (unpublishListing i s).2
  | LeaveListingReview e i b r => forget (leaveListingReview e i b r s).2
  | MakeNewBooking o d t i dr => forget (makeNewBooking o d t i dr s).2
  | RemoveBooking i => forget (removeBooking i s).2
  | AcceptBooking o i => forget (acceptBooking o i s).2
  | DeclineBooking o i => forget (declineBooking o i s).2
  end.

(** Two accounts with the same name and password. *)
Definition same_credentials (u u' : User.t) : Prop :=
  User.name u' = User.name u ∧ User.password u' = User.password u.

(** The value a field has after [if (x) listing.field = x]. *)
Definition updated {A : Type} (test : A → bool) (x : option A) (old : A) : A :=
  match x with
  | Some v => if test v then v else old
  | None => old
  end.

(** Whether an argument passes [if (x)]. *)
Definition passes {A : Type} (test : A → bool) (x : option A) : bool :=
  match x with
  | Some v => test v
  | None => false
  end.

(** The operation is no [updateListing] with a title that passes [if]. *)
Definition keeps_titles (op : Op) : Prop :=
  match op with
  | UpdateListing _ title _ _ _ _ => provided title = None
  | _ => True
  end.

(** The operation is a creation of a listing. *)
Definition creates_listing (op : Op) : Prop :=
  match op with
  | AddListing _ _ _ _ _ _ _ => True
  | _ => False
  end.




(** A listing of a@x.com is published and b@x.com books it. *)
Definition booking_pending : list Request :=
  Operation <$>
  [ AddListing (Some "Loft") "a@x.com" (Some (JString "1 Rd"))
      (Some (Num (inject_Z 100))) (Some (JString "t.png"))
      (Some (JObject "{}")) [1 # 2];
    PublishListing "549999999" (Some [JObject "[1,2]"])
      "2024-01-01T00:00:00.000Z";
    MakeNewBooking "b@x.com" (Some (JObject "[1,2]"))
      (Some (Num (inject_Z 200))) "549999999" [1 # 4] ].

(** * Properties *)

(** The cases of an operation, those that leave the store closed at once. *)
Ltac cases_of op := unfold op in *; repeat case_match; simpl; try done.

(** ** Evaluation *)

Example randNum_half : randNum default_max (1 # 2) = 549999999.
Proof. reflexivity. Qed.

Example generateId_fresh_list :
  generateId [JString "12"; JString "7"] default_max [1 # 2] = Some "549999999".
Proof. vm_compute. reflexivity. Qed.

Example parseInt_id : parseInt "549999999" = Num (inject_Z 549999999).
Proof. reflexivity. Qed.

Example parseInt_junk : parseInt "abc" = NaN.
Proof. reflexivity. Qed.

Example parseInt_prefix : parseInt " 42px" = Num (inject_Z 42).
Proof. reflexivity. Qed.

Example one_listing_keys : Object_keys (listings one_listing) = ["549999999"].
Proof. vm_compute. reflexivity. Qed.

(** ** Reading an id back *)

Lemma digit_of_pretty_N_char (d : N) :
  (d < 10)%N → digit_of (pretty_N_char d) = Some (Z.of_N d).
Proof.
  intros Hd.
  assert (d = 0 ∨ d = 1 ∨ d = 2 ∨ d = 3 ∨ d = 4 ∨ d = 5 ∨ d = 6 ∨ d = 7
          ∨ d = 8 ∨ d = 9)%N as Hcases by lia.
  repeat (destruct Hcases as [->|Hcases]; [reflexivity|]).
  by subst.
Qed.

(** Reading back the digits that [pretty_N_go] puts in front of [s]. *)
Lemma parse_digits_pretty_N_go (x : N) (s : string) (acc : option Z) :
  (0 < x)%N →
  ∃ k : nat,
    parse_digits (pretty_N_go x s) acc
    = parse_digits s (Some (default 0 acc * 10 ^ Z.of_nat k + Z.of_N x)).
Proof.
  revert s acc. induction (N.lt_wf_0 x) as [x _ IH]; intros s acc Hx.
  rewrite pretty_N_go_step by done.
  assert (x `mod` 10 < 10)%N as Hmod by (apply N.mod_lt; lia).
  assert (Z.of_N x = 10 * Z.of_N (x `div` 10) + Z.of_N (x `mod` 10)) as Hdiv.
  { rewrite (N.div_mod x 10) at 1 by lia.
    by rewrite N2Z.inj_add, N2Z.inj_mul. }
  destruct (decide (x `div` 10 = 0)%N) as [Hzero|Hpos].
  - rewrite Hzero in *. rewrite pretty_N_go_0. simpl parse_digits.
    rewrite digit_of_pretty_N_char by done.
    exists 1%nat. do 2 f_equal. rewrite Hdiv.
    change (10 ^ Z.of_nat 1) with 10. change (Z.of_N 0) with 0.
    generalize (default 0 acc) (Z.of_N (x `mod` 10)). intros a r. ring.
  - destruct (IH (x `div` 10)%N) with
      (s := String (pretty_N_char (x `mod` 10)) s) (acc := acc) as [k Hk].
    { apply N.div_lt; lia. }
    { by apply N.neq_0_lt_0. }
    rewrite Hk. simpl parse_digits. rewrite digit_of_pretty_N_char by done.
    exists (S k). do 2 f_equal. simpl default.
    rewrite Nat2Z.inj_succ, Z.pow_succ_r, Hdiv by lia.
    generalize (default 0 acc) (10 ^ Z.of_nat k) (Z.of_N (x `div` 10))
      (Z.of_N (x `mod` 10)).
    intros a P q r. ring.
Qed.

Lemma pretty_N_go_head (x : N) (s : string) :
  (0 < x)%N →
  ∃ d t, (d < 10)%N ∧ pretty_N_go x s = String (pretty_N_char d) t.
Proof.
  revert s. induction (N.lt_wf_0 x) as [x _ IH]; intros s Hx.
  rewrite pretty_N_go_step by done.
  destruct (decide (x `div` 10 = 0)%N) as [Hzero|Hpos].
  - rewrite Hzero, pretty_N_go_0. eexists _, _. split; [|done].
    apply N.mod_lt. lia.
  - apply IH; [apply N.div_lt; lia|by apply N.neq_0_lt_0].
Qed.

(** A text that starts with a digit has no white space or sign to skip. *)
Lemma parseInt_digits (d : N) (t : string) :
  (d < 10)%N →
  parseInt (String (pretty_N_char d) t)
  = match parse_digits (String (pretty_N_char d) t) None with
    | Some n => Num (inject_Z (1 * n))
    | None => NaN
    end.
Proof.
  intros Hd.
  assert (d = 0 ∨ d = 1 ∨ d = 2 ∨ d = 3 ∨ d = 4 ∨ d = 5 ∨ d = 6 ∨ d = 7
          ∨ d = 8 ∨ d = 9)%N as Hcases by lia.
  repeat (destruct Hcases as [->|Hcases]; [reflexivity|]).
  by subst.
Qed.

(** [parseInt] reads back the number that [toString] has written: the
    enumerations show an allocated id as the number that was drawn. *)
Lemma parseInt_Number_toString (R : Z) :
  parseInt (Number_toString R) = Num (inject_Z R).
Proof.
  unfold Number_toString, pretty, pretty_Z.
  destruct R as [|p|p]; [done| |].
  - unfold pretty, pretty_positive, pretty, pretty_N.
    rewrite decide_False by done.
    destruct (pretty_N_go_head (N.pos p) EmptyString) as (d & t & Hd & Ht); [done|].
    rewrite Ht, parseInt_digits by done. rewrite <- Ht.
    destruct (parse_digits_pretty_N_go (N.pos p) EmptyString None) as [k ->];
      [done|].
    simpl. do 2 f_equal.
  - unfold pretty, pretty_positive, pretty, pretty_N.
    rewrite decide_False by done.
    change (parseInt ("-" +:+ pretty_N_go (N.pos p) EmptyString))
      with (match parse_digits (pretty_N_go (N.pos p) EmptyString) None with
            | Some n => Num (inject_Z (-1 * n))
            | None => NaN
            end).
    destruct (parse_digits_pretty_N_go (N.pos p) EmptyString None) as [k ->];
      [done|].
    simpl. do 2 f_equal.
Qed.

(** ** Keys and searches *)

Lemma elem_of_Object_keys {V : Type} (o : gmap string V) (key : string) :
  key ∈ Object_keys o ↔ is_Some (o !! key).
Proof.
  unfold Object_keys. rewrite list_elem_of_fmap. split.
  - intros [[k v] [-> Hin]]. apply elem_of_map_to_list in Hin. by exists v.
  - intros [v Hv]. exists (key, v). split; [done|]. by apply elem_of_map_to_list.
Qed.

Lemma has_key_true {V : Type} (o : gmap string V) (key : string) :
  has_key key o = true ↔ is_Some (o !! key).
Proof. unfold has_key. by rewrite bool_decide_eq_true. Qed.

(** A search through the keys with a callback that reads the entry. *)
Lemma find_keys_Some {V : Type} (o : gmap string V) (f : string → bool) :
  is_Some (find f (Object_keys o)) ↔ ∃ key, is_Some (o !! key) ∧ f key = true.
Proof.
  split.
  - intros [key Hfind]. apply find_some in Hfind as [Hin Hf].
    exists key. split; [|done].
    apply elem_of_Object_keys. by apply list_elem_of_In.
  - intros (key & Hkey & Hf).
    destruct (find f (Object_keys o)) as [k|] eqn:Hfind; [by exists k|].
    apply elem_of_Object_keys, list_elem_of_In in Hkey.
    pose proof (find_none _ _ Hfind _ Hkey) as Hnone. congruence.
Qed.

Lemma find_keys_None {V : Type} (o : gmap string V) (f : string → bool) :
  find f (Object_keys o) = None ↔ ∀ key, is_Some (o !! key) → f key = false.
Proof.
  split.
  - intros Hfind key Hkey.
    apply elem_of_Object_keys, list_elem_of_In in Hkey.
    by apply (find_none _ _ Hfind).
  - intros Hall.
    destruct (find f (Object_keys o)) as [k|] eqn:Hfind; [|done].
    apply find_some in Hfind as [Hin Hf].
    apply list_elem_of_In, elem_of_Object_keys, Hall in Hin. congruence.
Qed.

(** ** The identifier allocator *)

(** A number is never found in a list of strings: the two have different
    types. *)
Lemma includes_number_in_strings (keys : list string) (n : number) :
  includes (JString <$> keys) (JNumber n) = false.
Proof.
  unfold includes. induction keys as [|key keys IH]; [done|].
  simpl. destruct n; exact IH.
Qed.

(** On the keys of a collection the loop of [generateId] never makes a
    second draw: the first value is returned whatever the keys are. *)
Lemma generateId_of_keys (keys : list string) (max : Z) (random : Q)
    (rest : list Q) :
  generateId (JString <$> keys) max (random :: rest)
  = Some (Number_toString (randNum max random)).
Proof. simpl. by rewrite includes_number_in_strings. Qed.

Lemma newListingId_first_draw (s : Store) (random : Q) (rest : list Q) :
  newListingId s (random :: rest)
  = Some (Number_toString (randNum default_max random)).
Proof. apply generateId_of_keys. Qed.

Lemma newBookingId_first_draw (s : Store) (random : Q) (rest : list Q) :
  newBookingId s (random :: rest)
  = Some (Number_toString (randNum default_max random)).
Proof. apply generateId_of_keys. Qed.

(** C1 (the code departs from it): the allocator is meant to return an id
    that is not among the keys of the collection, so that the ids of
    successive creations are pairwise distinct.  The loop compares the
    number drawn with keys that are strings, so on the keys of a collection
    it returns the first draw whatever the keys are.  With the listing
    ["549999999"] present and [Math.random()] returning one half,
    [newListingId] returns ["549999999"] again, and a second creation
    resolves with the id of the first and takes its place in the
    collection. *)
Theorem generateId_returns_present_id :
  (∀ (keys : list string) (max : Z) (random : Q) (rest : list Q),
     generateId (JString <$> keys) max (random :: rest)
     = Some (Number_toString (randNum max random)))
  ∧ newListingId one_listing [1 # 2] = Some "549999999"
  ∧ "549999999" ∈ Object_keys (listings one_listing)
  ∧ (addListing (Some "Loft") "a@x.com" (Some (JString "1 Rd"))
       (Some (Num (inject_Z 100))) (Some (JString "t.png"))
       (Some (JObject "{}")) [1 # 2] empty_store).2 = Resolve "549999999"
  ∧ second_creation.2 = Resolve "549999999"
  ∧ Listing.title <$> listings second_creation.1 !! "549999999" = Some "Den"
  ∧ size (listings second_creation.1) = 1%nat.
Proof.
  split; [apply generateId_of_keys|].
  split; [vm_compute; reflexivity|].
  split; [rewrite one_listing_keys; set_solver|].
  repeat split; vm_compute; reflexivity.
Qed.

(** ** Listing titles *)

Lemma has_title_true (s : Store) (title key : string) :
  has_title s title key = true
  ↔ ∃ l, listings s !! key = Some l ∧ Listing.title l = title.
Proof.
  unfold has_title. destruct (listings s !! key) as [l|].
  - rewrite String.eqb_eq. split.
    + intros Ht. by exists l.
    + by intros (l' & [= <-] & Ht).
  - split; [done|]. by intros (l' & Hl & _).
Qed.

(** [addListing] with the title of a listing of the store rejects and
    leaves the store as it is; the draws play no part, so no id is
    allocated. *)
Lemma addListing_duplicate_title (s : Store) (title email : string)
    (address : option JsValue) (price : option number)
    (thumbnail metadata : option JsValue) (draws : list Q)
    (id : string) (l : Listing.t) :
  listings s !! id = Some l → Listing.title l = title →
  addListing (Some title) email address price thumbnail metadata draws s
  = (s, Reject (InputError "A listing with this title already exists")).
Proof.
  intros Hl Ht. unfold addListing.
  destruct (find (has_title s title) (Object_keys (listings s))) eqn:Hfind;
    [done|].
  exfalso. pose proof (proj1 (find_keys_None _ _) Hfind id) as Hno.
  rewrite Hl in Hno. specialize (Hno (mk_is_Some _ _ eq_refl)).
  assert (has_title s title id = true) as Hyes
    by (apply has_title_true; eauto).
  congruence.
Qed.

(** A creation that resolves is followed by a rejection of the same title. *)
Lemma addListing_same_title_again (s s' : Store) (title email email' : string)
    (address address' : option JsValue) (price price' : option number)
    (thumbnail metadata thumbnail' metadata' : option JsValue)
    (draws draws' : list Q) (id : string) :
  addListing (Some title) email address price thumbnail metadata draws s
  = (s', Resolve id) →
  addListing (Some title) email' address' price' thumbnail' metadata' draws' s'
  = (s', Reject (InputError "A listing with this title already exists")).
Proof.
  unfold addListing at 1. intros Hadd.
  repeat case_match; simplify_eq.
  eapply addListing_duplicate_title; [apply lookup_insert_eq|done].
Qed.

(** [addListing] keeps the titles distinct, whichever id it draws. *)
Lemma addListing_titles_unique (s : Store) (title : option string)
    (email : string) (address : option JsValue) (price : option number)
    (thumbnail metadata : option JsValue) (draws : list Q) :
  titles_unique s →
  titles_unique
    (addListing title email address price thumbnail metadata draws s).1.
Proof.
  intros Huniq. unfold addListing.
  destruct title as [title|]; [|done].
  destruct (find _ _) eqn:Hfind; [done|].
  destruct address as [address|]; [|done].
  destruct price as [price|]; [|done].
  destruct (isNaN price); [done|].
  destruct thumbnail as [thumbnail|]; [|done].
  destruct metadata as [metadata|]; [|done].
  destruct (newListingId s draws) as [id|]; [|done].
  assert (∀ key l, listings s !! key = Some l → Listing.title l ≠ title)
    as Hfresh.
  { intros key l Hl Ht.
    pose proof (proj1 (find_keys_None _ _) Hfind key) as Hno.
    rewrite Hl in Hno. specialize (Hno (mk_is_Some _ _ eq_refl)).
    assert (has_title s title key = true) as Hyes
      by (apply has_title_true; eauto).
    congruence. }
  intros id1 id2 l1 l2. simpl.
  rewrite !lookup_insert_Some.
  intros [[<- <-]|[Hne1 H1]] [[<- <-]|[Hne2 H2]] Ht; simpl in Ht.
  - done.
  - by destruct (Hfresh _ _ H2).
  - by destruct (Hfresh _ _ H1).
  - by eapply Huniq.
Qed.

Lemma titles_unique_empty : titles_unique empty_store.
Proof. intros id1 id2 l1 l2 H1. simpl in H1. by rewrite lookup_empty in H1. Qed.

(** Two ids that carry one title refute [titles_unique]. *)
Lemma titles_repeat (s : Store) (id1 id2 title : string) :
  id1 ≠ id2 →
  Listing.title <$> listings s !! id1 = Some title →
  Listing.title <$> listings s !! id2 = Some title →
  ¬ titles_unique s.
Proof.
  intros Hne H1 H2 Huniq.
  destruct (listings s !! id1) as [l1|] eqn:E1; [|done].
  destruct (listings s !! id2) as [l2|] eqn:E2; [|done].
  simpl in H1, H2. apply Hne, (Huniq _ _ _ _ E1 E2). congruence.
Qed.

(** C2 (the code departs from it): titles are meant to stay pairwise
    distinct in every reachable state, and [addListing] keeps them so, but
    [updateListing] writes the new title unchecked.  After the listings
    "Loft" and "Den" are created, renaming the second to "Loft" resolves and
    leaves two listings with the title "Loft". *)
Theorem updateListing_repeats_title :
  titles_unique two_listings
  ∧ Listing.title <$> listings two_listings !! "549999999" = Some "Loft"
  ∧ Listing.title <$> listings two_listings !! "324999999" = Some "Den"
  ∧ (updateListing "324999999" (Some "Loft") None None None None
       two_listings).2 = Resolve tt
  ∧ Listing.title <$> listings renamed_listings !! "549999999" = Some "Loft"
  ∧ Listing.title <$> listings renamed_listings !! "324999999" = Some "Loft"
  ∧ ¬ titles_unique renamed_listings.
Proof.
  assert (Listing.title <$> listings renamed_listings !! "549999999"
          = Some "Loft") as H1 by (vm_compute; reflexivity).
  assert (Listing.title <$> listings renamed_listings !! "324999999"
          = Some "Loft") as H2 by (vm_compute; reflexivity).
  split.
  { unfold two_listings, one_listing.
    do 2 apply addListing_titles_unique. apply titles_unique_empty. }
  split; [vm_compute; reflexivity|].
  split; [vm_compute; reflexivity|].
  split; [vm_compute; reflexivity|].
  split; [exact H1|]. split; [exact H2|].
  by apply (titles_repeat _ "549999999" "324999999" "Loft").
Qed.

(** ** Runs *)

Lemma reachable_run (hasRedisCredentials : bool) (reqs : list Request)
    (p : Process) :
  reachable hasRedisCredentials p →
  reachable hasRedisCredentials (run hasRedisCredentials reqs p).
Proof.
  revert p. induction reqs as [|req reqs IH]; intros p Hp; [done|].
  simpl. apply IH. by constructor.
Qed.

(** ** Terminal bookings *)

Lemma find_is_listing_of (s : Store) (b : Booking.t) (owner : string) :
  is_Some (find (is_listing_of s b owner) (Object_keys (listings s)))
  ↔ owns_listing_of s owner b.
Proof.
  rewrite find_keys_Some. unfold is_listing_of, owns_listing_of. split.
  - intros (key & _ & Hf). apply andb_true_iff in Hf as [Hkey Hown].
    apply String.eqb_eq in Hkey as ->.
    destruct (listings s !! Booking.listingId b) as [l|]; [|done].
    apply String.eqb_eq in Hown. by exists l.
  - intros (l & Hl & Hown). exists (Booking.listingId b).
    rewrite Hl. split; [done|].
    rewrite String.eqb_refl. simpl. by apply String.eqb_eq.
Qed.

Lemma acceptBooking_terminal (s : Store) (owner bookingId : string)
    (b : Booking.t) :
  bookings s !! bookingId = Some b → terminal b →
  acceptBooking owner bookingId s
  = (s, Reject (if find (is_listing_of s b owner) (Object_keys (listings s))
                   is Some _
                then already b else not_yours)).
Proof.
  intros Hb Hterm. unfold acceptBooking, already. rewrite Hb.
  destruct (find _ _); [|done].
  destruct Hterm as [-> | ->]; done.
Qed.

Lemma declineBooking_terminal (s : Store) (owner bookingId : string)
    (b : Booking.t) :
  bookings s !! bookingId = Some b → terminal b →
  declineBooking owner bookingId s
  = (s, Reject (if find (is_listing_of s b owner) (Object_keys (listings s))
                   is Some _
                then already b else not_yours)).
Proof.
  intros Hb Hterm. unfold declineBooking, already. rewrite Hb.
  destruct (find _ _); [|done].
  destruct Hterm as [-> | ->]; done.
Qed.

(** A call on any booking leaves a terminal booking in place. *)
Lemma acceptBooking_keeps_terminal (s : Store) (owner' id' bookingId : string)
    (b : Booking.t) :
  bookings s !! bookingId = Some b → terminal b →
  bookings (acceptBooking owner' id' s).1 !! bookingId = Some b.
Proof.
  intros Hb Hterm. destruct (decide (id' = bookingId)) as [->|Hne].
  - by rewrite (acceptBooking_terminal _ _ _ b).
  - unfold acceptBooking. repeat case_match; simpl; try done.
    by rewrite lookup_insert_ne.
Qed.

Lemma declineBooking_keeps_terminal (s : Store) (owner' id' bookingId : string)
    (b : Booking.t) :
  bookings s !! bookingId = Some b → terminal b →
  bookings (declineBooking owner' id' s).1 !! bookingId = Some b.
Proof.
  intros Hb Hterm. destruct (decide (id' = bookingId)) as [->|Hne].
  - by rewrite (declineBooking_terminal _ _ _ b).
  - unfold declineBooking. repeat case_match; simpl; try done.
    by rewrite lookup_insert_ne.
Qed.

(** C3 as stated fails: every accept or decline call on a terminal booking
    would reject with a terminal-state conflict.  After [booking_accepted]
    the booking "324999999" is accepted; a call by eve@x.com, who does not
    own the listing, is rejected for that reason, not for the state of the
    booking. *)
Lemma terminal_call_by_stranger :
  ¬ (∀ (p : Process) (owner bookingId : string) (b : Booking.t),
       reachable false p →
       bookings (memory p) !! bookingId = Some b → terminal b →
       (∃ e, acceptBooking owner bookingId (memory p) = (memory p, Reject e)
             ∧ terminal_state_conflict e)
       ∧ (∃ e, declineBooking owner bookingId (memory p) = (memory p, Reject e)
               ∧ terminal_state_conflict e)).
Proof.
  intros Hclaim.
  destruct (Hclaim (run false booking_accepted fresh_process)
              "eve@x.com" "324999999"
              (Booking.mk "b@x.com" (JObject "[1,2]") (Num (inject_Z 200))
                 "549999999" "accepted"))
    as [(e & Hcall & Hconflict) _].
  - apply reachable_run. constructor.
  - vm_compute. reflexivity.
  - by left.
  - assert ((acceptBooking "eve@x.com" "324999999"
               (memory (run false booking_accepted fresh_process))).2
            = Reject not_yours) as Hrun by (vm_compute; reflexivity).
    rewrite Hcall in Hrun. simpl in Hrun.
    destruct Hconflict as [-> | ->]; discriminate Hrun.
Qed.

(** C3 (amended): on a booking whose status is "accepted" or "declined",
    every [acceptBooking] and [declineBooking] call rejects and leaves the
    store unchanged.  The rejection is the terminal-state conflict that names
    the status when the caller owns the booking's listing, and the ownership
    error otherwise.  No accept or decline call, on this booking or on
    another, changes the booking. *)
Theorem terminal_booking_calls_reject (s : Store) (owner bookingId : string)
    (b : Booking.t) :
  bookings s !! bookingId = Some b → terminal b →
  terminal_state_conflict (already b)
  ∧ (owns_listing_of s owner b →
     acceptBooking owner bookingId s = (s, Reject (already b))
     ∧ declineBooking owner bookingId s = (s, Reject (already b)))
  ∧ (¬ owns_listing_of s owner b →
     acceptBooking owner bookingId s = (s, Reject not_yours)
     ∧ declineBooking owner bookingId s = (s, Reject not_yours))
  ∧ (∀ owner' id',
       bookings (acceptBooking owner' id' s).1 !! bookingId = Some b
       ∧ bookings (declineBooking owner' id' s).1 !! bookingId = Some b).
Proof.
  intros Hb Hterm.
  rewrite (acceptBooking_terminal _ _ _ b Hb Hterm).
  rewrite (declineBooking_terminal _ _ _ b Hb Hterm).
  split; [|split; [|split]].
  - unfold terminal_state_conflict, already.
    destruct Hterm as [-> | ->]; [by left|by right].
  - intros Hown. apply find_is_listing_of in Hown as [key ->]. done.
  - intros Hown.
    destruct (find _ _) as [key|] eqn:Hfind; [|done].
    destruct Hown. apply find_is_listing_of. rewrite Hfind. by eexists.
  - intros owner' id'. split.
    + by apply acceptBooking_keeps_terminal.
    + by apply declineBooking_keeps_terminal.
Qed.

Lemma terminal_booking_calls_reject_witness :
  let s := memory (run false booking_accepted fresh_process) in
  acceptBooking "a@x.com" "324999999" s
  = (s, Reject (InputError "Booking has already been accepted"))
  ∧ declineBooking "a@x.com" "324999999" s
    = (s, Reject (InputError "Booking has already been accepted")).
Proof.
  intros s.
  destruct (terminal_booking_calls_reject s "a@x.com" "324999999"
              (Booking.mk "b@x.com" (JObject "[1,2]") (Num (inject_Z 200))
                 "549999999" "accepted"))
    as (_ & Hown & _ & _).
  - vm_compute. reflexivity.
  - left. reflexivity.
  - apply Hown. eexists. split; [vm_compute; reflexivity|reflexivity].
Defined.

(** ** Guarded assignments *)

Lemma keeps_group_consistent (f : Listing.t → Listing.t) (l : Listing.t) :
  keeps_group f → consistent l → consistent (f l).
Proof.
  intros Hf Hl. destruct (Hf l) as (Hp & Ho & Ha).
  unfold consistent. by rewrite Hp, Ho, Ha.
Qed.

Lemma when_truthy_keeps_group {A : Type} (test : A → bool) (x : option A)
    (set : A → Listing.t → Listing.t) (f : Listing.t → Listing.t) :
  (∀ v, keeps_group (set v)) → when_truthy test x set = Some f → keeps_group f.
Proof.
  intros Hset. unfold when_truthy.
  destruct x as [v|]; [|done]. destruct (test v); [|done].
  intros [= <-]. apply Hset.
Qed.

(** A property of the entries that functions keeping the group preserve is
    kept by a sequence of guarded assignments. *)
Lemma assign_all_Forall (P : string → Listing.t → Prop) (listingId : string)
    (fs : list (option (Listing.t → Listing.t)))
    (ls : gmap string Listing.t) :
  (∀ key f l, keeps_group f → P key l → P key (f l)) →
  Forall (λ o, ∀ f, o = Some f → keeps_group f) fs →
  map_Forall P ls → map_Forall P (assign_all listingId fs ls).1.
Proof.
  intros HP Hfs. revert ls.
  induction Hfs as [|o fs Ho Hfs IH]; intros ls Hls; [done|].
  destruct o as [f|]; simpl; [|by apply IH].
  unfold assign. destruct (ls !! listingId) as [l|] eqn:Hl; [|done].
  apply IH. apply map_Forall_insert_2; [|done].
  apply HP; [by apply Ho|]. by apply (Hls listingId).
Qed.

(** The assignments of [updateListing] keep the group. *)
Lemma updateListing_keeps_group (title : option string)
    (address thumbnail : option JsValue) (price : option number)
    (metadata : option JsValue) :
  Forall (λ o, ∀ f, o = Some f → keeps_group f)
    [ when_truthy truthy address Listing.set_address;
      when_truthy (λ t, negb (String.eqb t EmptyString)) title Listing.set_title;
      when_truthy truthy thumbnail Listing.set_thumbnail;
      when_truthy number_truthy price Listing.set_price;
      when_truthy truthy metadata Listing.set_metadata ].
Proof.
  repeat (apply Forall_cons_2;
          [intros f Hf; eapply when_truthy_keeps_group; [|exact Hf];
           by intros v l'|]).
  apply Forall_nil_2.
Qed.

Lemma updateListing_Forall (P : string → Listing.t → Prop) (listingId : string)
    (title : option string) (address thumbnail : option JsValue)
    (price : option number) (metadata : option JsValue) (s : Store) :
  (∀ key f l, keeps_group f → P key l → P key (f l)) →
  map_Forall P (listings s) →
  map_Forall P
    (listings
       (updateListing listingId title address thumbnail price metadata s).1).
Proof.
  intros HP Hs. unfold updateListing.
  destruct (assign_all _ _ _) as [ls completed] eqn:Hrun. simpl.
  change ls with (ls, completed).1. rewrite <- Hrun.
  apply assign_all_Forall; [done| |done]. apply updateListing_keeps_group.
Qed.

(** ** Publishing *)

Lemma publishListing_unpublished (s : Store) (listingId : string)
    (l : Listing.t) (availability : list JsValue) (now : string) :
  listings s !! listingId = Some l → Listing.published l = false →
  publishListing listingId (Some availability) now s
  = (set_listings
       (<[listingId :=
            Listing.set_postedOn (Some now)
              (Listing.set_published true
                 (Listing.set_availability availability l))]> (listings s)) s,
     Resolve tt).
Proof. intros Hl Hp. unfold publishListing. by rewrite Hl, Hp. Qed.

Lemma publishListing_published (s : Store) (listingId : string)
    (l : Listing.t) (availability : option (list JsValue)) (now : string) :
  listings s !! listingId = Some l → Listing.published l = true →
  ∃ e, publishListing listingId availability now s = (s, Reject e).
Proof.
  intros Hl Hp. unfold publishListing. rewrite Hl, Hp.
  destruct availability; eauto.
Qed.

Lemma unpublishListing_published (s : Store) (listingId : string)
    (l : Listing.t) :
  listings s !! listingId = Some l → Listing.published l = true →
  unpublishListing listingId s
  = (set_listings
       (<[listingId :=
            Listing.set_postedOn None
              (Listing.set_published false
                 (Listing.set_availability [] l))]> (listings s)) s,
     Resolve tt).
Proof. intros Hl Hp. unfold unpublishListing. by rewrite Hl, Hp. Qed.

(** ** Publishing twice *)

Lemma apply_published_or_absent (listingId : string) (op : Op) (s : Store) :
  leaves_published listingId (Operation op) s →
  published_or_absent listingId s →
  published_or_absent listingId (apply op s).
Proof.
  unfold published_or_absent. intros Hop Hs.
  destruct op as [| | | | | | | |email' listingId' bookingId' review| | | |];
    simpl in *.
  - cases_of login.
  - cases_of logout.
  - cases_of register.
  - cases_of addListing. simpl in Hop.
    apply map_Forall_insert_2; [|done]. by intros ->.
  - apply updateListing_Forall; [|done].
    intros key f l Hf Hl Hkey. destruct (Hf l) as (-> & _ & _). by apply Hl.
  - by apply map_Forall_delete.
  - cases_of publishListing. by apply map_Forall_insert_2.
  - cases_of unpublishListing. by apply map_Forall_insert_2.
  - cases_of leaveListingReview.
    apply map_Forall_insert_2; [|done]. simpl. by eapply (Hs listingId').
  - cases_of makeNewBooking.
  - done.
  - cases_of acceptBooking.
  - cases_of declineBooking.
Qed.

Lemma exec_published_or_absent (hasRedisCredentials : bool)
    (listingId : string) (req : Request) (p : Process) :
  leaves_published listingId req (memory p) →
  published_or_absent listingId (memory p) →
  published_or_absent listingId (memory (exec hasRedisCredentials req p)).
Proof.
  intros Hreq Hp. destruct req as [op|calls|calls].
  - by apply apply_published_or_absent.
  - unfold exec, save. by destruct (update _ _ _ _).
  - unfold exec, reset.
    destruct (update _ _ _ _) as [st []]; [apply map_Forall_empty|done|done].
Qed.

Lemma run_published_or_absent (hasRedisCredentials : bool)
    (listingId : string) (reqs : list Request) (p : Process) :
  undisturbed hasRedisCredentials listingId reqs p →
  published_or_absent listingId (memory p) →
  published_or_absent listingId (memory (run hasRedisCredentials reqs p)).
Proof.
  revert p. induction reqs as [|req reqs IH]; intros p Hreqs Hp; [done|].
  destruct Hreqs as [Hreq Hreqs]. simpl. apply IH; [done|].
  by apply exec_published_or_absent.
Qed.

(** On a listing that is published or absent every [publishListing]
    rejects. *)
Lemma publishListing_rejects (s : Store) (listingId : string)
    (availability : option (list JsValue)) (now : string) :
  published_or_absent listingId s →
  ∃ e, publishListing listingId availability now s = (s, Reject e).
Proof.
  intros Hs. unfold publishListing.
  destruct availability as [availability|]; [|eauto].
  destruct (listings s !! listingId) as [l|] eqn:Hl; [|eauto].
  rewrite (Hs listingId l Hl eq_refl). eauto.
Qed.

(** C4: on a listing that is present and unpublished, [publishListing] with
    a defined availability resolves and leaves the listing published, with
    a [postedOn] that is not null and the given availability; as long as no
    [unpublishListing] of the listing intervenes (and no creation takes its
    id), whatever else runs, a second [publishListing] of it rejects.  On a
    listing that is present and published, [unpublishListing] resolves and
    leaves the listing unpublished, with [postedOn] null and no
    availability. *)
Theorem publish_and_unpublish (s : Store) (listingId : string) (l : Listing.t)
    (availability : list JsValue) (now : string) :
  listings s !! listingId = Some l →
  (Listing.published l = false →
   (publishListing listingId (Some availability) now s).2 = Resolve tt
   ∧ (∃ l1,
        listings (publishListing listingId (Some availability) now s).1
          !! listingId = Some l1
        ∧ Listing.published l1 = true
        ∧ Listing.postedOn l1 = Some now
        ∧ Listing.postedOn l1 ≠ None
        ∧ Listing.availability l1 = availability)
   ∧ (∀ hasRedisCredentials st reqs availability2 now2,
        let p1 :=
          mkProcess (publishListing listingId (Some availability) now s).1 st in
        undisturbed hasRedisCredentials listingId reqs p1 →
        ∃ e,
          publishListing listingId availability2 now2
            (memory (run hasRedisCredentials reqs p1))
          = (memory (run hasRedisCredentials reqs p1), Reject e)))
  ∧ (Listing.published l = true →
     (unpublishListing listingId s).2 = Resolve tt
     ∧ (∃ l1,
          listings (unpublishListing listingId s).1 !! listingId = Some l1
          ∧ Listing.published l1 = false
          ∧ Listing.postedOn l1 = None
          ∧ Listing.availability l1 = [])).
Proof.
  intros Hl. split; intros Hp.
  - rewrite (publishListing_unpublished _ _ l) by done. simpl.
    split; [done|]. split.
    + eexists. rewrite lookup_insert_eq. done.
    + intros hasRedisCredentials st reqs availability2 now2 Hreqs.
      apply publishListing_rejects.
      apply run_published_or_absent; [done|].
      intros key l' Hl' ->. simpl in Hl'.
      rewrite lookup_insert_eq in Hl'. by simplify_eq.
  - rewrite (unpublishListing_published _ _ l) by done. simpl.
    split; [done|]. eexists. rewrite lookup_insert_eq. done.
Qed.

Lemma publish_and_unpublish_witness :
  let s1 :=
    (publishListing "549999999" (Some [JObject "[1,2]"])
       "2024-01-01T00:00:00.000Z" one_listing).1 in
  (publishListing "549999999" (Some [JObject "[1,2]"])
     "2024-01-01T00:00:00.000Z" one_listing).2 = Resolve tt
  ∧ (∃ l1,
       listings s1 !! "549999999" = Some l1
       ∧ Listing.published l1 = true
       ∧ Listing.postedOn l1 = Some "2024-01-01T00:00:00.000Z"
       ∧ Listing.availability l1 = [JObject "[1,2]"])
  ∧ (∃ e,
       publishListing "549999999" (Some []) "2024-01-02T00:00:00.000Z" s1
       = (s1, Reject e))
  ∧ (∃ e,
       publishListing "549999999" (Some []) "2024-01-02T00:00:00.000Z"
         (memory (run false after_publish (mkProcess s1 (mkStorage None None))))
       = (memory (run false after_publish (mkProcess s1 (mkStorage None None))),
          Reject e)).
Proof.
  intros s1.
  destruct (publish_and_unpublish one_listing "549999999"
              (newListingPayload "Loft" "a@x.com" (JString "1 Rd")
                 (Num (inject_Z 100)) (JString "t.png") (JObject "{}"))
              [JObject "[1,2]"] "2024-01-01T00:00:00.000Z")
    as [Hpub _].
  - vm_compute. reflexivity.
  - destruct Hpub as (Hres & (l1 & Hl1 & Hp1 & Ho1 & _ & Ha1) & Hagain);
      [reflexivity|].
    split; [exact Hres|].
    split; [exists l1; repeat split; assumption|]. split.
    + apply (Hagain false (mkStorage None None) []). exact I.
    + apply (Hagain false (mkStorage None None) after_publish).
      repeat split.
Defined.

(** ** The published group *)

Lemma newListingPayload_consistent (title owner : string) (address : JsValue)
    (price : number) (thumbnail metadata : JsValue) :
  consistent (newListingPayload title owner address price thumbnail metadata).
Proof. split; [split|]; done. Qed.

(** Every operation on the collections keeps the listings consistent. *)
Lemma apply_consistent (op : Op) (s : Store) :
  listings_consistent s → listings_consistent (apply op s).
Proof.
  unfold listings_consistent. intros Hs.
  destruct op as [| | | | | | | |email' listingId' bookingId' review| | | |];
    simpl.
  - cases_of login.
  - cases_of logout.
  - cases_of register.
  - cases_of addListing.
    apply map_Forall_insert_2; [|done]. apply newListingPayload_consistent.
  - apply updateListing_Forall; [|done].
    intros key f l. apply keeps_group_consistent.
  - by apply map_Forall_delete.
  - cases_of publishListing.
    apply map_Forall_insert_2; [|done]. split; [split|]; done.
  - cases_of unpublishListing.
    apply map_Forall_insert_2; [|done]. split; [split|]; done.
  - cases_of leaveListingReview.
    apply map_Forall_insert_2; [|done].
    apply keeps_group_consistent; [by intros l'|].
    by eapply (Hs listingId').
  - cases_of makeNewBooking.
  - done.
  - cases_of acceptBooking.
  - cases_of declineBooking.
Qed.

Lemma reachable_consistent (hasRedisCredentials : bool) (p : Process) :
  reachable hasRedisCredentials p → listings_consistent (memory p).
Proof.
  induction 1 as [st|req p Hp IH].
  - apply map_Forall_empty.
  - destruct req as [op|calls|calls].
    + by apply apply_consistent.
    + unfold exec, save. by destruct (update _ _ _ _).
    + unfold exec, reset.
      destruct (update _ _ _ _) as [st []]; [apply map_Forall_empty|done|done].
Qed.

(** C5 as stated fails: [published], a non-empty [availability] and a
    non-null [postedOn] would hold together in every reachable state.
    [publishListing] takes every defined availability, the empty array
    too, and the listing is then published with no availability. *)
Lemma published_without_availability :
  ¬ (∀ (p : Process) (listingId : string) (l : Listing.t),
       reachable false p → listings (memory p) !! listingId = Some l →
       (Listing.published l = true ↔ Listing.availability l ≠ [])
       ∧ (Listing.published l = true ↔ Listing.postedOn l ≠ None)).
Proof.
  intros Hclaim.
  destruct (Hclaim (run false published_empty fresh_process) "549999999"
              (Listing.mk "Loft" "a@x.com" (JString "1 Rd") (Num (inject_Z 100))
                 (JString "t.png") (JObject "{}") [] [] true
                 (Some "2024-01-01T00:00:00.000Z")))
    as [[Hav _] _].
  - apply reachable_run. constructor.
  - vm_compute. reflexivity.
  - by apply Hav.
Qed.

(** C5 (amended): in every state reachable by the exported operations, a
    listing is published if and only if its [postedOn] is not null, and a
    listing whose availability is not empty is published.  A published
    listing may have an empty availability. *)
Theorem published_group_invariant (hasRedisCredentials : bool) (p : Process)
    (listingId : string) (l : Listing.t) :
  reachable hasRedisCredentials p →
  listings (memory p) !! listingId = Some l →
  (Listing.published l = true ↔ Listing.postedOn l ≠ None)
  ∧ (Listing.availability l ≠ [] → Listing.published l = true).
Proof.
  intros Hp Hl. by apply (reachable_consistent _ _ Hp listingId).
Qed.

Lemma published_group_invariant_witness :
  let l := Listing.mk "Loft" "a@x.com" (JString "1 Rd") (Num (inject_Z 100))
             (JString "t.png") (JObject "{}") [] [] true
             (Some "2024-01-01T00:00:00.000Z") in
  (Listing.published l = true ↔ Listing.postedOn l ≠ None)
  ∧ (Listing.availability l ≠ [] → Listing.published l = true).
Proof.
  intros l.
  apply (published_group_invariant false
           (run false published_empty fresh_process) "549999999" l).
  - apply reachable_run. constructor.
  - vm_compute. reflexivity.
Defined.

(** ** Saving *)

Lemma update_rejects (hasRedisCredentials : bool) (snapshot : Store)
    (calls : Calls) (st : Storage) :
  is_rejected (update hasRedisCredentials snapshot calls st).2 = true
  ↔ in_try calls = Throws ∧ in_catch calls = Throws.
Proof.
  unfold update, write_fallback.
  destruct hasRedisCredentials, (in_try calls), (in_catch calls); simpl;
    split; try done; by intros [? ?].
Qed.

Lemma update_both_throw (hasRedisCredentials : bool) (snapshot : Store)
    (calls : Calls) (st : Storage) :
  in_try calls = Throws → in_catch calls = Throws →
  update hasRedisCredentials snapshot calls st
  = (st, Reject (PlainError "Writing to storage failed")).
Proof.
  intros Ht Hc. unfold update, write_fallback. rewrite Ht, Hc.
  by destruct hasRedisCredentials.
Qed.

Lemma update_resolves (hasRedisCredentials : bool) (snapshot : Store)
    (calls : Calls) (st : Storage) :
  in_try calls = Returns ∨ in_catch calls = Returns →
  (update hasRedisCredentials snapshot calls st).2 = Resolve tt
  ∧ written hasRedisCredentials calls
      (update hasRedisCredentials snapshot calls st).1 = Some snapshot.
Proof.
  unfold update, write_fallback, written.
  destruct hasRedisCredentials, (in_try calls), (in_catch calls); simpl;
    intros [?|?]; done.
Qed.

(** C6: when the save to the remote backend fails and the write of the
    local file succeeds, [save] resolves and the local file holds the
    snapshot of the three collections; [save] rejects, with the storage
    error, only when the call of the [try] block and the write of the
    [catch] block both throw, and then no backend has changed; in every
    case the collections in memory are what they were. *)
Theorem save_falls_back_to_file (hasRedisCredentials : bool) (calls : Calls)
    (p : Process) :
  memory (save hasRedisCredentials calls p).1 = memory p
  ∧ (hasRedisCredentials = true →
     in_try calls = Throws → in_catch calls = Returns →
     (save hasRedisCredentials calls p).2 = Resolve tt
     ∧ database_json (storage (save hasRedisCredentials calls p).1)
       = Some (memory p)
     ∧ redis_airbrb_data (storage (save hasRedisCredentials calls p).1)
       = redis_airbrb_data (storage p))
  ∧ (is_rejected (save hasRedisCredentials calls p).2 = true
     ↔ in_try calls = Throws ∧ in_catch calls = Throws)
  ∧ (is_rejected (save hasRedisCredentials calls p).2 = true →
     save hasRedisCredentials calls p
     = (p, Reject (PlainError "Writing to storage failed"))).
Proof.
  unfold save.
  pose proof (update_rejects hasRedisCredentials (memory p) calls (storage p))
    as Hrej.
  destruct (update hasRedisCredentials (memory p) calls (storage p))
    as [st settled] eqn:Hupd.
  simpl in *. split; [done|]. split; [|split; [done|]].
  - intros -> Ht Hc. unfold update, write_fallback in Hupd.
    rewrite Ht, Hc in Hupd. by simplify_eq.
  - intros Hr. apply Hrej in Hr as [Ht Hc].
    rewrite (update_both_throw _ _ _ _ Ht Hc) in Hupd. simplify_eq.
    by destruct p.
Qed.

Lemma save_falls_back_to_file_witness :
  let p := mkProcess one_listing (mkStorage None None) in
  let calls := mkCalls Throws Returns in
  (save true calls p).2 = Resolve tt
  ∧ database_json (storage (save true calls p).1) = Some one_listing
  ∧ redis_airbrb_data (storage (save true calls p).1) = None.
Proof.
  intros p calls.
  destruct (save_falls_back_to_file true calls p) as (_ & Hfall & _ & _).
  apply Hfall; reflexivity.
Defined.

(** ** Resetting *)

(** When both storage calls throw, [reset] rejects before the collections
    are replaced. *)
Lemma reset_storage_failure (hasRedisCredentials : bool) (calls : Calls)
    (p : Process) :
  in_try calls = Throws → in_catch calls = Throws →
  reset hasRedisCredentials calls p
  = (p, Reject (PlainError "Writing to storage failed")).
Proof.
  intros Ht Hc. unfold reset. rewrite (update_both_throw _ _ _ _ Ht Hc).
  by destruct p.
Qed.

Lemma reset_resolves (hasRedisCredentials : bool) (calls : Calls) (p : Process) :
  in_try calls = Returns ∨ in_catch calls = Returns →
  reset hasRedisCredentials calls p
  = (mkProcess empty_store
       (update hasRedisCredentials empty_store calls (storage p)).1,
     Resolve tt).
Proof.
  intros Hok. unfold reset.
  destruct (update_resolves hasRedisCredentials empty_store calls (storage p) Hok)
    as [Hres _].
  destruct (update _ _ _ _) as [st settled]. simpl in Hres. by rewrite Hres.
Qed.

Lemma update_again (hasRedisCredentials : bool) (snapshot : Store)
    (calls : Calls) (st : Storage) :
  (update hasRedisCredentials snapshot calls
     (update hasRedisCredentials snapshot calls st).1).1
  = (update hasRedisCredentials snapshot calls st).1.
Proof.
  unfold update, write_fallback.
  by destruct hasRedisCredentials, (in_try calls), (in_catch calls).
Qed.

(** C7 as stated fails: two calls of [reset] in a row would both resolve
    and leave the collections empty, whatever storage does.  When the
    [redis.set] and the fallback write both throw, [reset] rejects, and the
    listing that was in memory is still there. *)
Lemma reset_rejected_by_storage :
  ¬ (∀ (hasRedisCredentials : bool) (calls1 calls2 : Calls) (p : Process),
       let first := reset hasRedisCredentials calls1 p in
       let second := reset hasRedisCredentials calls2 first.1 in
       first.2 = Resolve tt ∧ memory first.1 = empty_store
       ∧ second.2 = Resolve tt ∧ memory second.1 = empty_store).
Proof.
  intros Hclaim.
  destruct (Hclaim true (mkCalls Throws Throws) (mkCalls Throws Throws)
              (mkProcess one_listing (mkStorage None None)))
    as (Hfirst & _).
  rewrite reset_storage_failure in Hfirst by reflexivity.
  discriminate Hfirst.
Qed.

(** C7 (amended): when storage takes the write of the empty snapshot (the
    call of the [try] block or the fallback write returns), [reset] resolves
    with the three collections empty and the empty snapshot in the backend
    that was written; a second such [reset] right after it resolves too and
    leaves the collections empty, and with the same storage outcome it
    leaves the process exactly as the first did.  When both storage calls
    throw, [reset] rejects with the storage error and the process is left
    as it was. *)
Theorem reset_twice (hasRedisCredentials : bool) (calls1 calls2 : Calls)
    (p : Process) :
  (in_try calls1 = Returns ∨ in_catch calls1 = Returns →
   in_try calls2 = Returns ∨ in_catch calls2 = Returns →
   let first := reset hasRedisCredentials calls1 p in
   let second := reset hasRedisCredentials calls2 first.1 in
   first.2 = Resolve tt
   ∧ users (memory first.1) = ∅
   ∧ listings (memory first.1) = ∅
   ∧ bookings (memory first.1) = ∅
   ∧ written hasRedisCredentials calls1 (storage first.1) = Some empty_store
   ∧ second.2 = Resolve tt
   ∧ users (memory second.1) = ∅
   ∧ listings (memory second.1) = ∅
   ∧ bookings (memory second.1) = ∅
   ∧ written hasRedisCredentials calls2 (storage second.1) = Some empty_store
   ∧ (calls2 = calls1 → second = first))
  ∧ (in_try calls1 = Throws → in_catch calls1 = Throws →
     reset hasRedisCredentials calls1 p
     = (p, Reject (PlainError "Writing to storage failed"))).
Proof.
  split; [|apply reset_storage_failure].
  intros Hok1 Hok2 first second. subst first second.
  rewrite (reset_resolves _ _ p Hok1). simpl.
  rewrite (reset_resolves _ _ _ Hok2). simpl.
  destruct (update_resolves hasRedisCredentials empty_store calls1 (storage p)
              Hok1) as [_ Hw1].
  destruct (update_resolves hasRedisCredentials empty_store calls2
              (update hasRedisCredentials empty_store calls1 (storage p)).1
              Hok2) as [_ Hw2].
  repeat split; try done.
  intros ->. by rewrite update_again.
Qed.

Lemma reset_twice_witness :
  let p := mkProcess one_listing (mkStorage None None) in
  let calls := mkCalls Throws Returns in
  (reset true calls p).2 = Resolve tt
  ∧ users (memory (reset true calls p).1) = ∅
  ∧ listings (memory (reset true calls p).1) = ∅
  ∧ bookings (memory (reset true calls p).1) = ∅
  ∧ database_json (storage (reset true calls p).1) = Some empty_store
  ∧ (reset true calls (reset true calls p).1).2 = Resolve tt
  ∧ memory (reset true calls (reset true calls p).1).1 = empty_store
  ∧ reset true calls (reset true calls p).1 = reset true calls p.
Proof.
  intros p calls.
  destruct (reset_twice true calls calls p) as [Hok _].
  destruct Hok as (H1 & H2 & H3 & H4 & H5 & H6 & H7 & H8 & H9 & _ & H11);
    [right; reflexivity|right; reflexivity|].
  split; [exact H1|]. split; [exact H2|]. split; [exact H3|].
  split; [exact H4|]. split; [exact H5|]. split; [exact H6|].
  split; [|exact (H11 eq_refl)].
  destruct (memory (reset true calls (reset true calls p).1).1)
    as [us ls bs] eqn:Hmem.
  simpl in H7, H8, H9. by rewrite H7, H8, H9.
Defined.

(** ** Enumerations *)

Lemma omap_lookup_keys {V W : Type} (o : gmap string V) (g : string → V → W)
    (l : list (string * V)) :
  (∀ key v, (key, v) ∈ l → o !! key = Some v) →
  omap (λ key, g key <$> o !! key) (l.*1) = (λ kv, g kv.1 kv.2) <$> l.
Proof.
  induction l as [|[key v] l IH]; intros Hl; [done|].
  simpl. rewrite (Hl key v) by apply list_elem_of_here. simpl.
  f_equal. apply IH. intros key' v' Hin. apply Hl. by apply list_elem_of_further.
Qed.

(** The enumeration is the callback applied to every entry. *)
Lemma omap_Object_keys {V W : Type} (o : gmap string V) (g : string → V → W) :
  omap (λ key, g key <$> o !! key) (Object_keys o)
  = (λ kv, g kv.1 kv.2) <$> map_to_list o.
Proof.
  apply omap_lookup_keys. intros key v. apply elem_of_map_to_list.
Qed.

Lemma elem_of_views {V W : Type} (o : gmap string V) (g : string → V → W)
    (w : W) :
  w ∈ (λ kv, g kv.1 kv.2) <$> map_to_list o
  ↔ ∃ key v, o !! key = Some v ∧ w = g key v.
Proof.
  rewrite list_elem_of_fmap. split.
  - intros ([key v] & -> & Hin). apply elem_of_map_to_list in Hin. eauto.
  - intros (key & v & Hv & ->). exists (key, v).
    split; [done|]. by apply elem_of_map_to_list.
Qed.

Lemma listing_view_scrub (key : string) (l : Listing.t) :
  listing_view key (scrub l) = listing_view key l.
Proof. done. Qed.

Lemma getAllListings_scrub (s : Store) :
  getAllListings s
  = Resolve ((λ kv, listing_view kv.1 kv.2) <$> map_to_list (scrub <$> listings s)).
Proof.
  unfold getAllListings. rewrite omap_Object_keys, map_to_list_fmap.
  rewrite <- list_fmap_compose. f_equal.
Qed.

(** C9: [getAllListings] resolves with one record per listing, made of the
    seven fields [id] (the key read by [parseInt]), [title], [owner],
    [address], [thumbnail], [price] and [reviews]; [getAllBookings] with one
    record per booking, made of [id], [owner], [dateRange], [totalPrice],
    [listingId] and [status].  A store that differs only in the metadata,
    availability, published flag or posting date of listings, or anywhere in
    its users, gives the same two enumerations. *)
Theorem enumerations_project (s : Store) :
  ∃ views bviews,
    getAllListings s = Resolve views
    ∧ getAllBookings s = Resolve bviews
    ∧ length views = size (listings s)
    ∧ length bviews = size (bookings s)
    ∧ (∀ v, v ∈ views ↔
         ∃ key l, listings s !! key = Some l
           ∧ v = ListingView.mk (parseInt key) (Listing.title l)
                   (Listing.owner l) (Listing.address l) (Listing.thumbnail l)
                   (Listing.price l) (Listing.reviews l))
    ∧ (∀ v, v ∈ bviews ↔
         ∃ key b, bookings s !! key = Some b
           ∧ v = BookingView.mk (parseInt key) (Booking.owner b)
                   (Booking.dateRange b) (Booking.totalPrice b)
                   (Booking.listingId b) (Booking.status b))
    ∧ (∀ s', scrub <$> listings s' = scrub <$> listings s →
             bookings s' = bookings s →
             getAllListings s' = Resolve views
             ∧ getAllBookings s' = Resolve bviews).
Proof.
  exists ((λ kv, listing_view kv.1 kv.2) <$> map_to_list (listings s)),
         ((λ kv, booking_view kv.1 kv.2) <$> map_to_list (bookings s)).
  split; [unfold getAllListings; by rewrite omap_Object_keys|].
  split; [unfold getAllBookings; by rewrite omap_Object_keys|].
  split; [by rewrite length_fmap, length_map_to_list|].
  split; [by rewrite length_fmap, length_map_to_list|].
  split; [intros v; apply elem_of_views|].
  split; [intros v; apply elem_of_views|].
  intros s' Hl Hb. split.
  - rewrite getAllListings_scrub, Hl, <- getAllListings_scrub.
    unfold getAllListings. by rewrite omap_Object_keys.
  - unfold getAllBookings. by rewrite Hb, omap_Object_keys.
Qed.

Lemma enumerations_project_witness :
  memory (run false other_run fresh_process)
  ≠ memory (run false plain_run fresh_process)
  ∧ getAllListings (memory (run false other_run fresh_process))
    = getAllListings (memory (run false plain_run fresh_process))
  ∧ getAllBookings (memory (run false other_run fresh_process))
    = getAllBookings (memory (run false plain_run fresh_process)).
Proof.
  split.
  - intros Heq.
    assert (User.password <$>
              users (memory (run false other_run fresh_process)) !! "a@x.com"
            = Some "hunter2") as Hpw by (vm_compute; reflexivity).
    rewrite Heq in Hpw. vm_compute in Hpw. discriminate Hpw.
  - destruct (enumerations_project (memory (run false plain_run fresh_process)))
      as (views & bviews & Hviews & Hbviews & _ & _ & _ & _ & Hsame).
    rewrite Hviews, Hbviews. apply Hsame; vm_compute; reflexivity.
Defined.

(** ** Removal *)

Lemma set_listings_same (s : Store) : set_listings (listings s) s = s.
Proof. by destruct s. Qed.

Lemma set_bookings_same (s : Store) : set_bookings (bookings s) s = s.
Proof. by destruct s. Qed.

(** C10: [removeListing] and [removeBooking] resolve for every id.  With an
    absent id the store is unchanged, and a removal done twice is the
    removal done once.  [removeListing] deletes the named listing and
    nothing else: the other listings, the users and the bookings stay, the
    bookings that refer to the removed listing among them. *)
Theorem removals_resolve (s : Store) (id : string) :
  ((removeListing id s).2 = Resolve tt
   ∧ listings (removeListing id s).1 !! id = None
   ∧ (∀ key, key ≠ id →
        listings (removeListing id s).1 !! key = listings s !! key)
   ∧ users (removeListing id s).1 = users s
   ∧ bookings (removeListing id s).1 = bookings s
   ∧ (listings s !! id = None → (removeListing id s).1 = s)
   ∧ removeListing id (removeListing id s).1 = removeListing id s)
  ∧ ((removeBooking id s).2 = Resolve tt
     ∧ bookings (removeBooking id s).1 !! id = None
     ∧ (∀ key, key ≠ id →
          bookings (removeBooking id s).1 !! key = bookings s !! key)
     ∧ users (removeBooking id s).1 = users s
     ∧ listings (removeBooking id s).1 = listings s
     ∧ (bookings s !! id = None → (removeBooking id s).1 = s)
     ∧ removeBooking id (removeBooking id s).1 = removeBooking id s).
Proof.
  unfold removeListing, removeBooking. simpl. split.
  - split; [done|]. split; [apply lookup_delete_eq|].
    split; [intros key Hne; by apply lookup_delete_ne|].
    split; [done|]. split; [done|]. split.
    + intros Habsent. rewrite delete_id by done. apply set_listings_same.
    + f_equal. unfold set_listings. simpl. f_equal. apply delete_delete_eq.
  - split; [done|]. split; [apply lookup_delete_eq|].
    split; [intros key Hne; by apply lookup_delete_ne|].
    split; [done|]. split; [done|]. split.
    + intros Habsent. rewrite delete_id by done. apply set_bookings_same.
    + f_equal. unfold set_bookings. simpl. f_equal. apply delete_delete_eq.
Qed.

Lemma removals_resolve_witness :
  let s := memory (run false booking_accepted fresh_process) in
  (removeListing "549999999" s).2 = Resolve tt
  ∧ listings (removeListing "549999999" s).1 !! "549999999" = None
  ∧ bookings (removeListing "549999999" s).1 = bookings s
  ∧ Booking.listingId <$> bookings (removeListing "549999999" s).1 !! "324999999"
    = Some "549999999"
  ∧ (removeListing "1" s).1 = s
  ∧ (removeBooking "1" s).1 = s.
Proof.
  intros s.
  destruct (removals_resolve s "549999999")
    as [(Hres & Hgone & _ & _ & Hbookings & _ & _) _].
  destruct (removals_resolve s "1")
    as [(_ & _ & _ & _ & _ & Hlisting & _) (_ & _ & _ & _ & _ & Hbooking & _)].
  split; [exact Hres|]. split; [exact Hgone|]. split; [exact Hbookings|].
  split; [rewrite Hbookings; vm_compute; reflexivity|].
  split; [apply Hlisting|apply Hbooking]; vm_compute; reflexivity.
Defined.

(** * Further properties *)

(** ** The range of the allocator *)

Lemma Math_floor_tenth (max : Z) : Math_floor (inject_Z max / 10) = max / 10.
Proof.
  unfold Math_floor, Qdiv, Qmult, Qinv, inject_Z. simpl.
  by rewrite Z.mul_1_r.
Qed.

(** X1: for a [max] that is not negative and a value of [Math.random()] in
    [0, 1), [randNum max] lies between [Math.floor(max / 10)] and [max],
    both included. *)
Theorem randNum_in_range (max : Z) (random : Q) :
  0 ≤ max → (0 <= random)%Q → (random < 1)%Q →
  max / 10 ≤ randNum max random ≤ max.
Proof.
  intros Hmax Hlo Hhi. unfold randNum, Math_round.
  rewrite Math_floor_tenth.
  assert (0 ≤ max / 10 ≤ max) as Hb.
  { split; [apply Z.div_pos; lia|]. apply Z.div_le_upper_bound; lia. }
  set (a := inject_Z (max - max / 10)). set (b := inject_Z (max / 10)).
  assert (0 <= a)%Q as Ha.
  { unfold a. rewrite <- (Zle_Qle 0). lia. }
  assert (a + b == inject_Z max)%Q as Hab.
  { unfold a, b. rewrite <- inject_Z_plus. f_equiv. lia. }
  assert (0 <= random * a)%Q as Hra by (apply Qmult_le_0_compat; done).
  assert (random * a <= a)%Q as Hra'.
  { rewrite <- (Qmult_1_l a) at 2. apply Qmult_le_compat_r; [|done].
    by apply Qlt_le_weak. }
  split.
  - rewrite <- (Qfloor_Z (max / 10)). apply Qfloor_resp_le. fold b.
    clearbody a b. lra.
  - apply Z.lt_succ_r. rewrite Zlt_Qlt.
    eapply Qle_lt_trans; [apply Qfloor_le|].
    unfold Z.succ. rewrite inject_Z_plus, <- Hab.
    change (inject_Z 1) with 1%Q. clearbody a b. lra.
Qed.

Lemma randNum_in_range_witness :
  99999999 ≤ randNum default_max (1 # 4) ≤ 999999999.
Proof.
  apply (randNum_in_range default_max (1 # 4)).
  - unfold default_max. lia.
  - unfold Qle. simpl. lia.
  - unfold Qlt. simpl. lia.
Defined.

(** X2: the id that [generateId] returns is the text of a number that one
    of the draws gives and that [includes] does not find in the list: on a
    list that holds numbers, the numbers already there are passed over. *)
Theorem generateId_not_included (currentList : list JsValue) (max : Z)
    (draws : list Q) (id : string) :
  generateId currentList max draws = Some id →
  ∃ random, random ∈ draws
    ∧ id = Number_toString (randNum max random)
    ∧ includes currentList (JNumber (Num (inject_Z (randNum max random))))
      = false.
Proof.
  induction draws as [|random draws IH]; [done|].
  simpl. destruct (includes _ _) eqn:Hin.
  - intros Hid. destruct (IH Hid) as (r & Hr & Hrest).
    exists r. split; [by apply list_elem_of_further|done].
  - intros [= <-]. exists random. split; [apply list_elem_of_here|done].
Qed.

Lemma generateId_not_included_witness :
  generateId [JNumber (Num (inject_Z 549999999)); JString "324999999"]
    default_max [1 # 2; 1 # 4] = Some "324999999"
  ∧ ∃ random, random ∈ [1 # 2; 1 # 4]
      ∧ "324999999" = Number_toString (randNum default_max random)
      ∧ includes [JNumber (Num (inject_Z 549999999)); JString "324999999"]
          (JNumber (Num (inject_Z (randNum default_max random)))) = false.
Proof.
  split; [vm_compute; reflexivity|].
  apply (generateId_not_included _ default_max [1 # 2; 1 # 4]).
  vm_compute. reflexivity.
Defined.

(** ** Accounts *)

Lemma provided_Some (x : string) : x ≠ EmptyString → provided (Some x) = Some x.
Proof.
  intros Hx. unfold provided.
  destruct (String.eqb x EmptyString) eqn:Heq; [|done].
  by apply String.eqb_eq in Heq.
Qed.

Lemma set_users_same (s : Store) : set_users (users s) s = s.
Proof. by destruct s. Qed.



Lemma login_known (s : Store) (email password : string) (u : User.t) :
  email ≠ EmptyString → password ≠ EmptyString →
  users s !! email = Some u →
  login (Some email) (Some password) s
  = if String.eqb (User.password u) password
    then (set_users (<[email := User.set_sessionActive true u]> (users s)) s,
          Resolve (jwt_sign email))
    else (s, Reject (InputError "Invalid email or password")).
Proof.
  intros He Hp Hu. unfold login. rewrite !provided_Some by done.
  by rewrite Hu.
Qed.





Lemma apply_keeps_accounts (op : Op) (s : Store) (email : string) (u : User.t) :
  users s !! email = Some u →
  ∃ u', users (apply op s) !! email = Some u' ∧ same_credentials u u'.
Proof.
  intros Hu.
  assert (∃ u', users s !! email = Some u' ∧ same_credentials u u') as Hkept
    by (by exists u).
  destruct op as [e pw|e|e pw n| | | | | | | | | |]; simpl.
  - unfold login.
    destruct (provided e) as [e'|]; [|done].
    destruct (provided pw) as [pw'|]; [|done].
    destruct (users s !! e') as [u0|] eqn:Hu0; [|done].
    destruct (String.eqb _ _); [|done]. simpl.
    destruct (decide (e' = email)) as [->|Hne].
    + rewrite lookup_insert_eq. eexists. split; [done|].
      by simplify_eq.
    + by rewrite lookup_insert_ne.
  - unfold logout. destruct (users s !! e) as [u0|] eqn:Hu0; [|done]. simpl.
    destruct (decide (e = email)) as [->|Hne].
    + rewrite lookup_insert_eq. eexists. split; [done|].
      by simplify_eq.
    + by rewrite lookup_insert_ne.
  - unfold register.
    destruct (provided e) as [e'|]; [|done].
    destruct (provided pw) as [pw'|]; [|done].
    destruct (provided n) as [n'|]; [|done].
    destruct (has_key e' (users s)) eqn:Hkey; [done|]. simpl.
    destruct (decide (e' = email)) as [->|Hne].
    + assert (has_key email (users s) = true) as Hkey'
        by (apply has_key_true; by exists u).
      congruence.
    + by rewrite lookup_insert_ne.
  - cases_of addListing.
  - unfold updateListing. by destruct (assign_all _ _ _).
  - done.
  - cases_of publishListing.
  - cases_of unpublishListing.
  - cases_of leaveListingReview.
  - cases_of makeNewBooking.
  - done.
  - cases_of acceptBooking.
  - cases_of declineBooking.
Qed.

(** X5: no operation on the collections removes an account or changes its
    name or its password: an email that is a user stays one, with the same
    credentials. *)
Theorem accounts_kept (op : Op) (s : Store) (email : string) (u : User.t) :
  users s !! email = Some u →
  ∃ u', users (apply op s) !! email = Some u' ∧ same_credentials u u'.
Proof. apply apply_keeps_accounts. Qed.

Lemma accounts_kept_witness :
  ∃ u', users
          (apply (Login (Some "a@x.com") (Some "pw"))
             (memory (run false plain_run fresh_process))) !! "a@x.com"
        = Some u'
        ∧ same_credentials (User.mk "Ann" "pw" true) u'.
Proof.
  apply (accounts_kept (Login (Some "a@x.com") (Some "pw"))).
  vm_compute. reflexivity.
Defined.

(** ** Assignments to a listing *)

(** The listing after a sequence of guarded assignments. *)
Lemma assign_all_present (listingId : string)
    (fs : list (option (Listing.t → Listing.t)))
    (ls : gmap string Listing.t) (l : Listing.t) :
  ls !! listingId = Some l →
  assign_all listingId fs ls
  = (<[listingId := foldl (λ l' o, from_option (λ f, f l') l' o) l fs]> ls,
     true).
Proof.
  revert ls l. induction fs as [|[f|] fs IH]; intros ls l Hl; simpl.
  - by rewrite insert_id.
  - unfold assign. rewrite Hl.
    rewrite (IH _ (f l)) by apply lookup_insert_eq.
    by rewrite insert_insert_eq.
  - by apply IH.
Qed.

(** On a listing that is absent nothing is assigned. *)
Lemma assign_all_absent (listingId : string)
    (fs : list (option (Listing.t → Listing.t)))
    (ls : gmap string Listing.t) :
  ls !! listingId = None →
  assign_all listingId fs ls
  = (ls, forallb (λ o, if o is Some _ then false else true) fs).
Proof.
  intros Hl. induction fs as [|[f|] fs IH]; simpl; [done| |done].
  unfold assign. by rewrite Hl.
Qed.

(** ** Rejections *)

(** X6: an operation on the collections whose promise does not resolve
    leaves the three collections exactly as they were: every check comes
    before the first write. *)
Theorem rejected_leaves_store (op : Op) (s : Store) :
  settles op s ≠ Resolve tt → apply op s = s.
Proof.
  destruct op as [| | | |listingId title address thumbnail price metadata
                  | | | | | | | |]; simpl; intros Hsettles.
  - cases_of login.
  - cases_of logout.
  - cases_of register.
  - cases_of addListing.
  - unfold updateListing in *.
    destruct (listings s !! listingId) as [l|] eqn:Hl.
    + rewrite (assign_all_present _ _ _ l Hl) in Hsettles. by destruct Hsettles.
    + rewrite (assign_all_absent _ _ _ Hl). simpl. apply set_listings_same.
  - done.
  - cases_of publishListing.
  - cases_of unpublishListing.
  - cases_of leaveListingReview.
  - cases_of makeNewBooking.
  - done.
  - cases_of acceptBooking.
  - cases_of declineBooking.
Qed.

Lemma rejected_leaves_store_witness :
  apply (UpdateListing "1" (Some "Den") None None None None) one_listing
  = one_listing.
Proof.
  apply (rejected_leaves_store
           (UpdateListing "1" (Some "Den") None None None None) one_listing).
  vm_compute. discriminate.
Defined.

(** ** Creating a listing *)

Lemma find_has_title_None (s : Store) (title : string) :
  (∀ key l, listings s !! key = Some l → Listing.title l ≠ title) →
  find (has_title s title) (Object_keys (listings s)) = None.
Proof.
  intros Hfresh. apply find_keys_None. intros key [l Hl].
  apply not_true_is_false. rewrite has_title_true.
  intros (l' & Hl' & Ht). by apply (Hfresh key l').
Qed.

(** X7: [addListing] with every field provided, a price that is a number,
    and a title that no listing has, resolves with the text of the first
    number drawn.  The listing stored under that id has the given fields, the
    caller as owner, no reviews, no availability, and is unpublished;
    [getListingDetails] returns it, [assertOwnsListing] accepts the caller,
    and [getAllListings] shows it with the number drawn as [id].  The users,
    the bookings and the listings under other ids are as before. *)
Theorem addListing_resolves (s : Store) (title email : string)
    (address : JsValue) (price : number) (thumbnail metadata : JsValue)
    (random : Q) (rest : list Q) :
  (∀ key l, listings s !! key = Some l → Listing.title l ≠ title) →
  isNaN price = false →
  let R := randNum default_max random in
  let id := Number_toString R in
  let l := Listing.mk title email address price thumbnail metadata [] [] false
             None in
  let s' := (addListing (Some title) email (Some address) (Some price)
               (Some thumbnail) (Some metadata) (random :: rest) s).1 in
  (addListing (Some title) email (Some address) (Some price)
     (Some thumbnail) (Some metadata) (random :: rest) s).2 = Resolve id
  ∧ listings s' !! id = Some l
  ∧ (∀ key, key ≠ id → listings s' !! key = listings s !! key)
  ∧ users s' = users s
  ∧ bookings s' = bookings s
  ∧ getListingDetails id s' = Resolve (Some l)
  ∧ assertOwnsListing email id s' = Resolve tt
  ∧ (∃ views, getAllListings s' = Resolve views
       ∧ ListingView.mk (Num (inject_Z R)) title email address thumbnail price []
         ∈ views).
Proof.
  intros Hfresh Hprice R id l s'. subst s'. unfold addListing.
  rewrite (find_has_title_None _ _ Hfresh), Hprice, newListingId_first_draw.
  fold R. fold id. simpl.
  assert (<[id := newListingPayload title email address price thumbnail
                    metadata]> (listings s) !! id = Some l) as Hl
    by apply lookup_insert_eq.
  split; [done|]. split; [done|].
  split; [by intros key Hne; apply lookup_insert_ne|].
  split; [done|]. split; [done|].
  split; [unfold getListingDetails; simpl; by rewrite Hl|].
  split.
  { unfold assertOwnsListing. simpl. rewrite Hl. simpl.
    by rewrite String.eqb_refl. }
  eexists. split.
  { unfold getAllListings. by rewrite omap_Object_keys. }
  apply elem_of_views. exists id, l. split; [done|].
  unfold listing_view, id. by rewrite parseInt_Number_toString.
Qed.

Lemma addListing_resolves_witness :
  (addListing (Some "Den") "b@x.com" (Some (JString "2 Rd"))
     (Some (Num (inject_Z 80))) (Some (JString "u.png")) (Some (JObject "{}"))
     [1 # 4] one_listing).2 = Resolve "324999999"
  ∧ getListingDetails "324999999" two_listings
    = Resolve
        (Some (Listing.mk "Den" "b@x.com" (JString "2 Rd") (Num (inject_Z 80))
                 (JString "u.png") (JObject "{}") [] [] false None)).
Proof.
  destruct (addListing_resolves one_listing "Den" "b@x.com" (JString "2 Rd")
              (Num (inject_Z 80)) (JString "u.png") (JObject "{}") (1 # 4) [])
    as (Hres & _ & _ & _ & _ & Hdetails & _).
  - intros key l Hl Ht.
    assert (Listing.title <$> listings one_listing !! key = Some "Den") as Hk
      by (by rewrite Hl; simpl; rewrite Ht).
    assert (key ∈ Object_keys (listings one_listing)) as Hin
      by (apply elem_of_Object_keys; by exists l).
    rewrite one_listing_keys in Hin. apply list_elem_of_singleton in Hin as ->.
    vm_compute in Hk. discriminate Hk.
  - reflexivity.
  - split; [exact Hres|exact Hdetails].
Defined.

(** ** Updating a listing *)

Lemma updateListing_on_present (s : Store) (listingId : string)
    (title : option string) (address thumbnail : option JsValue)
    (price : option number) (metadata : option JsValue) (l : Listing.t) :
  listings s !! listingId = Some l →
  ∃ l',
    updateListing listingId title address thumbnail price metadata s
    = (set_listings (<[listingId := l']> (listings s)) s, Resolve tt)
    ∧ Listing.title l'
      = updated (λ t, negb (String.eqb t EmptyString)) title (Listing.title l)
    ∧ Listing.address l' = updated truthy address (Listing.address l)
    ∧ Listing.thumbnail l' = updated truthy thumbnail (Listing.thumbnail l)
    ∧ Listing.price l' = updated number_truthy price (Listing.price l)
    ∧ Listing.metadata l' = updated truthy metadata (Listing.metadata l)
    ∧ Listing.owner l' = Listing.owner l
    ∧ Listing.reviews l' = Listing.reviews l
    ∧ Listing.availability l' = Listing.availability l
    ∧ Listing.published l' = Listing.published l
    ∧ Listing.postedOn l' = Listing.postedOn l.
Proof.
  intros Hl. unfold updateListing.
  rewrite (assign_all_present _ _ _ l Hl). eexists. split; [done|].
  unfold when_truthy, updated. simpl.
  destruct address as [a|]; [destruct (truthy a)|];
    (destruct title as [t|]; [destruct (negb _)|]);
    (destruct thumbnail as [th|]; [destruct (truthy th)|]);
    (destruct price as [p|]; [destruct (number_truthy p)|]);
    (destruct metadata as [m|]; [destruct (truthy m)|]);
    repeat split; reflexivity.
Qed.

Lemma updateListing_on_absent (s : Store) (listingId : string)
    (title : option string) (address thumbnail : option JsValue)
    (price : option number) (metadata : option JsValue) :
  listings s !! listingId = None →
  updateListing listingId title address thumbnail price metadata s
  = (s, if passes truthy address
           || passes (λ t, negb (String.eqb t EmptyString)) title
           || passes truthy thumbnail || passes number_truthy price
           || passes truthy metadata
        then Reject TypeError else Resolve tt).
Proof.
  intros Hl. unfold updateListing.
  rewrite (assign_all_absent _ _ _ Hl), set_listings_same. f_equal.
  unfold when_truthy, passes. simpl.
  destruct address as [a|]; [destruct (truthy a)|];
    (destruct title as [t|]; [destruct (negb _)|]);
    (destruct thumbnail as [th|]; [destruct (truthy th)|]);
    (destruct price as [p|]; [destruct (number_truthy p)|]);
    (destruct metadata as [m|]; [destruct (truthy m)|]);
    reflexivity.
Qed.



(** ** Titles under the other operations *)

Lemma titles_unique_insert_same (s : Store) (listingId : string)
    (l l' : Listing.t) :
  listings s !! listingId = Some l → Listing.title l' = Listing.title l →
  titles_unique s →
  titles_unique (set_listings (<[listingId := l']> (listings s)) s).
Proof.
  intros Hl Ht Huniq id1 id2 l1 l2. simpl. rewrite !lookup_insert_Some.
  intros [[<- <-]|[Hne1 H1]] [[<- <-]|[Hne2 H2]] Heq; [done| | |].
  - rewrite Ht in Heq. by apply (Huniq _ _ _ _ Hl H2).
  - rewrite Ht in Heq. by apply (Huniq _ _ _ _ H1 Hl).
  - by apply (Huniq _ _ _ _ H1 H2).
Qed.

Lemma titles_unique_delete (s : Store) (listingId : string) :
  titles_unique s →
  titles_unique (set_listings (delete listingId (listings s)) s).
Proof.
  intros Huniq id1 id2 l1 l2. simpl. rewrite !lookup_delete_Some.
  intros [_ H1] [_ H2]. by apply Huniq.
Qed.

(** X9: every operation other than an [updateListing] that writes a title
    keeps the titles of the listings pairwise distinct. *)
Theorem titles_unique_kept (op : Op) (s : Store) :
  keeps_titles op → titles_unique s → titles_unique (apply op s).
Proof.
  intros Hop Huniq.
  destruct op as [| | | |listingId title address thumbnail price metadata
                  |listingId| | | | | | |]; simpl.
  - cases_of login.
  - cases_of logout.
  - cases_of register.
  - by apply addListing_titles_unique.
  - destruct (listings s !! listingId) as [l|] eqn:Hl.
    + destruct (updateListing_on_present s listingId title address thumbnail
                  price metadata l Hl) as (l' & -> & Ht & _).
      apply (titles_unique_insert_same _ _ l); [done| |done].
      rewrite Ht. simpl in Hop. unfold provided in Hop. unfold updated.
      destruct title as [t|]; [|done]. by destruct (String.eqb t EmptyString).
    + by rewrite (updateListing_on_absent _ _ _ _ _ _ _ Hl).
  - by apply titles_unique_delete.
  - cases_of publishListing. by eapply titles_unique_insert_same.
  - cases_of unpublishListing. by eapply titles_unique_insert_same.
  - cases_of leaveListingReview. by eapply titles_unique_insert_same.
  - cases_of makeNewBooking.
  - done.
  - cases_of acceptBooking.
  - cases_of declineBooking.
Qed.

Lemma titles_unique_kept_witness :
  titles_unique
    (apply (UpdateListing "324999999" None None None
              (Some (Num (inject_Z 90))) None) two_listings).
Proof.
  apply (titles_unique_kept
           (UpdateListing "324999999" None None None
              (Some (Num (inject_Z 90))) None) two_listings).
  - reflexivity.
  - unfold two_listings, one_listing.
    do 2 apply addListing_titles_unique. apply titles_unique_empty.
Defined.

(** ** Publishing and taking back *)

(** X10: in a reachable state, publishing an unpublished listing and then
    unpublishing it resolves both times and gives back the store exactly as
    it was before the two calls. *)
Theorem publish_then_unpublish_restores (hasRedisCredentials : bool)
    (p : Process) (listingId : string) (l : Listing.t)
    (availability : list JsValue) (now : string) :
  reachable hasRedisCredentials p →
  listings (memory p) !! listingId = Some l →
  Listing.published l = false →
  (publishListing listingId (Some availability) now (memory p)).2 = Resolve tt
  ∧ unpublishListing listingId
      (publishListing listingId (Some availability) now (memory p)).1
    = (memory p, Resolve tt).
Proof.
  intros Hp Hl Hunpub.
  destruct (reachable_consistent _ _ Hp listingId l Hl) as [Hposted Havail].
  rewrite (publishListing_unpublished _ _ l) by done. simpl. split; [done|].
  erewrite unpublishListing_published; [|apply lookup_insert_eq|done].
  f_equal. unfold set_listings. simpl. rewrite insert_insert_eq.
  assert (Listing.set_postedOn None
            (Listing.set_published false
               (Listing.set_availability []
                  (Listing.set_postedOn (Some now)
                     (Listing.set_published true
                        (Listing.set_availability availability l))))) = l)
    as ->.
  { destruct l as [t o a pr th m r av pub po]. simpl in *. subst pub.
    destruct po as [po|].
    { assert (false = true) as Habs by (by apply Hposted). discriminate Habs. }
    destruct av as [|x av]; [done|].
    assert (false = true) as Habs by (by apply Havail). discriminate Habs. }
  rewrite insert_id by done. by destruct (memory p).
Qed.

Lemma publish_then_unpublish_restores_witness :
  let s := memory (run false plain_run fresh_process) in
  (publishListing "549999999" (Some [JObject "[1,2]"])
     "2024-01-01T00:00:00.000Z" s).2 = Resolve tt
  ∧ unpublishListing "549999999"
      (publishListing "549999999" (Some [JObject "[1,2]"])
         "2024-01-01T00:00:00.000Z" s).1
    = (s, Resolve tt).
Proof.
  intros s.
  apply (publish_then_unpublish_restores false
           (run false plain_run fresh_process) "549999999"
           (newListingPayload "Loft" "a@x.com" (JString "1 Rd")
              (Num (inject_Z 100)) (JString "t.png") (JObject "{}"))).
  - apply reachable_run. constructor.
  - vm_compute. reflexivity.
  - reflexivity.
Defined.

(** ** Making a booking *)

(** X11: on a published listing of somebody else, [makeNewBooking] with a
    date range and a total price that is a number and not negative resolves
    with the text of the first number drawn and stores, under that id, a
    pending booking with the given owner, dates, price and listing;
    [assertOwnsBooking] accepts the owner; users, listings and the other
    bookings are as before.  On one's own listing, and on an unpublished
    listing of somebody else, the same call is rejected. *)
Theorem makeNewBooking_resolves (s : Store) (owner listingId : string)
    (dateRange : JsValue) (totalPrice : number) (l : Listing.t)
    (random : Q) (rest : list Q) :
  listings s !! listingId = Some l →
  isNaN totalPrice = false → number_negative totalPrice = false →
  let call :=
    makeNewBooking owner (Some dateRange) (Some totalPrice) listingId
      (random :: rest) s in
  let id := Number_toString (randNum default_max random) in
  (Listing.owner l ≠ owner → Listing.published l = true →
   call.2 = Resolve id
   ∧ bookings call.1 !! id
     = Some (Booking.mk owner dateRange totalPrice listingId "pending")
   ∧ (∀ key, key ≠ id → bookings call.1 !! key = bookings s !! key)
   ∧ users call.1 = users s
   ∧ listings call.1 = listings s
   ∧ assertOwnsBooking owner id call.1 = Resolve tt)
  ∧ (Listing.owner l = owner →
     call = (s, Reject (InputError "Cannot make bookings for your own listings")))
  ∧ (Listing.owner l ≠ owner → Listing.published l = false →
     call
     = (s, Reject (InputError "Cannot make a booking for an unpublished listing"))).
Proof.
  intros Hl Hnan Hneg call id. subst call. unfold makeNewBooking.
  rewrite Hl, Hnan, Hneg, newBookingId_first_draw. fold id. simpl.
  split; [|split].
  - intros Hown Hpub.
    assert (String.eqb (Listing.owner l) owner = false) as ->
      by (by apply String.eqb_neq).
    rewrite Hpub. simpl. split; [done|].
    split; [apply lookup_insert_eq|].
    split; [by intros key Hne; apply lookup_insert_ne|].
    split; [done|]. split; [done|].
    unfold assertOwnsBooking. simpl. rewrite lookup_insert_eq. simpl.
    by rewrite String.eqb_refl.
  - intros ->. by rewrite String.eqb_refl.
  - intros Hown Hpub.
    assert (String.eqb (Listing.owner l) owner = false) as ->
      by (by apply String.eqb_neq).
    by rewrite Hpub.
Qed.

Lemma makeNewBooking_resolves_witness :
  let s := (publishListing "549999999" (Some [JObject "[1,2]"])
              "2024-01-01T00:00:00.000Z" one_listing).1 in
  (makeNewBooking "b@x.com" (Some (JObject "[1,2]")) (Some (Num (inject_Z 200)))
     "549999999" [1 # 4] s).2 = Resolve "324999999"
  ∧ makeNewBooking "a@x.com" (Some (JObject "[1,2]"))
      (Some (Num (inject_Z 200))) "549999999" [1 # 4] s
    = (s, Reject (InputError "Cannot make bookings for your own listings"))
  ∧ makeNewBooking "b@x.com" (Some (JObject "[1,2]"))
      (Some (Num (inject_Z 200))) "549999999" [1 # 4] one_listing
    = (one_listing,
       Reject (InputError "Cannot make a booking for an unpublished listing")).
Proof.
  intros s.
  destruct (makeNewBooking_resolves s "b@x.com" "549999999" (JObject "[1,2]")
              (Num (inject_Z 200))
              (Listing.mk "Loft" "a@x.com" (JString "1 Rd") (Num (inject_Z 100))
                 (JString "t.png") (JObject "{}") [] [JObject "[1,2]"] true
                 (Some "2024-01-01T00:00:00.000Z")) (1 # 4) [])
    as (Hbook & _ & _); [vm_compute; reflexivity|reflexivity|reflexivity|].
  destruct (makeNewBooking_resolves s "a@x.com" "549999999" (JObject "[1,2]")
              (Num (inject_Z 200))
              (Listing.mk "Loft" "a@x.com" (JString "1 Rd") (Num (inject_Z 100))
                 (JString "t.png") (JObject "{}") [] [JObject "[1,2]"] true
                 (Some "2024-01-01T00:00:00.000Z")) (1 # 4) [])
    as (_ & Hown & _); [vm_compute; reflexivity|reflexivity|reflexivity|].
  destruct (makeNewBooking_resolves one_listing "b@x.com" "549999999"
              (JObject "[1,2]") (Num (inject_Z 200))
              (newListingPayload "Loft" "a@x.com" (JString "1 Rd")
                 (Num (inject_Z 100)) (JString "t.png") (JObject "{}"))
              (1 # 4) [])
    as (_ & _ & Hunpub); [vm_compute; reflexivity|reflexivity|reflexivity|].
  split; [apply Hbook; [discriminate|reflexivity]|].
  split; [by apply Hown|]. apply Hunpub; [discriminate|reflexivity].
Defined.

(** ** Well-formed records *)





(** ** Settling a pending booking *)

Lemma find_is_listing_of_Some (s : Store) (b : Booking.t) (owner : string) :
  owns_listing_of s owner b →
  ∃ key, find (is_listing_of s b owner) (Object_keys (listings s)) = Some key.
Proof. intros Hown. by apply find_is_listing_of in Hown as [key ->]; eauto. Qed.

(** X13: on a booking that is neither accepted nor declined, a call by the
    owner of its listing resolves: [acceptBooking] leaves the booking
    accepted, [declineBooking] leaves it declined, and nothing else in the
    store changes.  After either, both calls by the same owner are rejected
    with the conflict that names the status reached. *)
Theorem pending_booking_settles (s : Store) (owner bookingId : string)
    (b : Booking.t) :
  bookings s !! bookingId = Some b → ¬ terminal b →
  owns_listing_of s owner b →
  let accepted := set_bookings
                    (<[bookingId := Booking.set_status "accepted" b]> (bookings s))
                    s in
  let declined := set_bookings
                    (<[bookingId := Booking.set_status "declined" b]> (bookings s))
                    s in
  acceptBooking owner bookingId s = (accepted, Resolve tt)
  ∧ declineBooking owner bookingId s = (declined, Resolve tt)
  ∧ acceptBooking owner bookingId accepted
    = (accepted, Reject (InputError "Booking has already been accepted"))
  ∧ declineBooking owner bookingId accepted
    = (accepted, Reject (InputError "Booking has already been accepted"))
  ∧ acceptBooking owner bookingId declined
    = (declined, Reject (InputError "Booking has already been declined"))
  ∧ declineBooking owner bookingId declined
    = (declined, Reject (InputError "Booking has already been declined")).
Proof.
  intros Hb Hterm Hown accepted declined.
  destruct (find_is_listing_of_Some _ _ _ Hown) as [key Hkey].
  assert (String.eqb (Booking.status b) "accepted" = false) as Ha.
  { apply String.eqb_neq. intros Heq. apply Hterm. by left. }
  assert (String.eqb (Booking.status b) "declined" = false) as Hd.
  { apply String.eqb_neq. intros Heq. apply Hterm. by right. }
  split; [unfold acceptBooking; by rewrite Hb, Hkey, Ha, Hd|].
  split; [unfold declineBooking; by rewrite Hb, Hkey, Ha, Hd|].
  assert (owns_listing_of accepted owner (Booking.set_status "accepted" b))
    as Hown1 by done.
  assert (owns_listing_of declined owner (Booking.set_status "declined" b))
    as Hown2 by done.
  destruct (find_is_listing_of_Some _ _ _ Hown1) as [key1 Hkey1].
  destruct (find_is_listing_of_Some _ _ _ Hown2) as [key2 Hkey2].
  split; [|split; [|split]].
  - rewrite (acceptBooking_terminal accepted owner bookingId
               (Booking.set_status "accepted" b));
      [by rewrite Hkey1|apply lookup_insert_eq|by left].
  - rewrite (declineBooking_terminal accepted owner bookingId
               (Booking.set_status "accepted" b));
      [by rewrite Hkey1|apply lookup_insert_eq|by left].
  - rewrite (acceptBooking_terminal declined owner bookingId
               (Booking.set_status "declined" b));
      [by rewrite Hkey2|apply lookup_insert_eq|by right].
  - rewrite (declineBooking_terminal declined owner bookingId
               (Booking.set_status "declined" b));
      [by rewrite Hkey2|apply lookup_insert_eq|by right].
Qed.

Lemma pending_booking_settles_witness :
  let s := memory (run false booking_pending fresh_process) in
  (acceptBooking "a@x.com" "324999999" s).2 = Resolve tt
  ∧ (declineBooking "a@x.com" "324999999"
       (acceptBooking "a@x.com" "324999999" s).1).2
    = Reject (InputError "Booking has already been accepted").
Proof.
  intros s.
  destruct (pending_booking_settles s "a@x.com" "324999999"
              (Booking.mk "b@x.com" (JObject "[1,2]") (Num (inject_Z 200))
                 "549999999" "pending"))
    as (Haccept & _ & _ & Hdecline & _).
  - vm_compute. reflexivity.
  - intros [Hs|Hs]; discriminate Hs.
  - eexists. split; [vm_compute; reflexivity|reflexivity].
  - split; [exact (f_equal snd Haccept)|].
    rewrite Haccept. exact (f_equal snd Hdecline).
Defined.

(** ** Bookings of a removed listing *)




(** ** Reviews *)

(** X15: the reviews of a listing only grow.  [leaveListingReview] by the
    owner of a booking of the listing resolves and puts the review after the
    ones that are there, whatever the status of the booking and whether or
    not the listing is published; under every operation other than a
    creation, a listing that is still in the store has its earlier reviews
    as the first of its reviews, in the same order. *)
Theorem reviews_only_grow (s : Store) (listingId : string) (l : Listing.t) :
  listings s !! listingId = Some l →
  (∀ email bookingId b review,
     bookings s !! bookingId = Some b →
     Booking.owner b = email → Booking.listingId b = listingId →
     ∃ l',
       leaveListingReview email listingId bookingId (Some review) s
       = (set_listings (<[listingId := l']> (listings s)) s, Resolve tt)
       ∧ Listing.reviews l' = Listing.reviews l ++ [review])
  ∧ (∀ op l', ¬ creates_listing op →
       listings (apply op s) !! listingId = Some l' →
       Listing.reviews l `prefix_of` Listing.reviews l').
Proof.
  intros Hl. split.
  - intros email bookingId b review Hb Hown Hid. unfold leaveListingReview.
    rewrite Hb, Hl, Hown, Hid, !String.eqb_refl. simpl. by eexists.
  - intros op l' Hop.
    assert (∀ key l0 l1,
              listings s !! key = Some l0 →
              Listing.reviews l0 `prefix_of` Listing.reviews l1 →
              <[key := l1]> (listings s) !! listingId = Some l' →
              Listing.reviews l `prefix_of` Listing.reviews l') as Hins.
    { intros key l0 l1 Hl0 Hpre. rewrite lookup_insert_Some.
      intros [[-> <-]|[_ Hl']]; by simplify_eq. }
    destruct op as [| | | |id title address thumbnail price metadata
                    |id|id av now|id|email' id bookingId review| | | |];
      simpl.
    + cases_of login; intros; by simplify_eq.
    + cases_of logout; intros; by simplify_eq.
    + cases_of register; intros; by simplify_eq.
    + by destruct Hop.
    + destruct (listings s !! id) as [l0|] eqn:Hl0.
      * destruct (updateListing_on_present s id title address thumbnail
                    price metadata l0 Hl0)
          as (l1 & -> & _ & _ & _ & _ & _ & _ & Hrev & _). simpl.
        rewrite lookup_insert_Some.
        intros [[-> <-]|[_ Hl']]; simplify_eq; [by rewrite Hrev|done].
      * rewrite (updateListing_on_absent _ _ _ _ _ _ _ Hl0). simpl.
        intros; by simplify_eq.
    + rewrite lookup_delete_Some. intros [_ Hl']. by simplify_eq.
    + cases_of publishListing; try (intros; by simplify_eq).
      by eapply Hins.
    + cases_of unpublishListing; try (intros; by simplify_eq).
      by eapply Hins.
    + cases_of leaveListingReview; try (intros; by simplify_eq).
      eapply Hins; [done|]. simpl. by apply prefix_app_r.
    + cases_of makeNewBooking; intros; by simplify_eq.
    + intros; by simplify_eq.
    + cases_of acceptBooking; intros; by simplify_eq.
    + cases_of declineBooking; intros; by simplify_eq.
Qed.

Lemma reviews_only_grow_witness :
  let s := memory (run false booking_pending fresh_process) in
  ∃ l',
    leaveListingReview "b@x.com" "549999999" "324999999"
      (Some (JString "fine")) s
    = (set_listings (<["549999999" := l']> (listings s)) s, Resolve tt)
    ∧ Listing.reviews l' = [] ++ [JString "fine"].
Proof.
  intros s.
  destruct (reviews_only_grow s "549999999"
              (Listing.mk "Loft" "a@x.com" (JString "1 Rd") (Num (inject_Z 100))
                 (JString "t.png") (JObject "{}") [] [JObject "[1,2]"] true
                 (Some "2024-01-01T00:00:00.000Z")))
    as [Hleave _]; [vm_compute; reflexivity|].
  apply (Hleave "b@x.com" "324999999"
           (Booking.mk "b@x.com" (JObject "[1,2]") (Num (inject_Z 200))
              "549999999" "pending")).
  - vm_compute. reflexivity.
  - reflexivity.
  - reflexivity.
Defined.

(** ** Loading what was saved *)

Lemma assign_document_of (s : Store) : assign_document (document_of s) = s.
Proof. by destruct s. Qed.

(** What a process starts with on a storage. *)
Lemma start_memory (hasRedisCredentials redis_reachable : bool) (st : Storage) :
  memory (start hasRedisCredentials redis_reachable st)
  = match (if hasRedisCredentials && redis_reachable
           then redis_airbrb_data st else None) with
    | Some s => s
    | None => default empty_store (database_json st)
    end.
Proof.
  unfold start, loadData, redis_get_of, file_read_of, load_file. simpl.
  destruct hasRedisCredentials, redis_reachable; simpl;
    destruct (redis_airbrb_data st), (database_json st); simpl;
    by rewrite ?assign_document_of.
Qed.



(** X17: with credentials and a remote store that answers, [loadData] takes
    the remote snapshot and never reads the file: after a [save] whose
    [redis.set] failed and whose fallback write succeeded, a process that
    starts with the remote store reachable again loads the snapshot the
    remote store held before, not the one that was just saved to the file.
    When no backend yields data the process starts with three empty
    collections. *)
Theorem start_prefers_remote (calls : Calls) (p : Process) (old : Store) :
  redis_airbrb_data (storage p) = Some old →
  in_try calls = Throws → in_catch calls = Returns →
  (save true calls p).2 = Resolve tt
  ∧ database_json (storage (save true calls p).1) = Some (memory p)
  ∧ memory (start true true (storage (save true calls p).1)) = old
  ∧ memory (start true false (storage (save true calls p).1)) = memory p
  ∧ (∀ hasRedisCredentials redis_reachable,
       memory (start hasRedisCredentials redis_reachable (mkStorage None None))
       = empty_store).
Proof.
  intros Hold Ht Hc.
  split; [unfold save, update, write_fallback; by rewrite Ht, Hc|].
  rewrite !start_memory. unfold save, update, write_fallback.
  rewrite Ht, Hc. simpl. rewrite Hold.
  split; [done|]. split; [done|]. split; [done|].
  intros hasRedisCredentials redis_reachable.
  unfold start, loadData, redis_get_of, file_read_of, load_file. simpl.
  by destruct hasRedisCredentials, redis_reachable.
Qed.

Lemma start_prefers_remote_witness :
  let p := mkProcess two_listings (mkStorage (Some one_listing) None) in
  (save true (mkCalls Throws Returns) p).2 = Resolve tt
  ∧ memory (start true true (storage (save true (mkCalls Throws Returns) p).1))
    = one_listing
  ∧ memory (start true false (storage (save true (mkCalls Throws Returns) p).1))
    = two_listings.
Proof.
  intros p.
  destruct (start_prefers_remote (mkCalls Throws Returns) p one_listing)
    as (Hsave & _ & Hremote & Hfile & _); [reflexivity|reflexivity|reflexivity|].
  split; [exact Hsave|]. split; [exact Hremote|exact Hfile].
Defined.

(** ** Authorization *)





(** ** Ids in the enumerations *)

(** X19: an id that [generateId] returns is read back by [parseInt] as the
    number that was drawn, so the enumerations show every allocated id as
    that number and never as [NaN]. *)
Theorem allocated_id_reads_back (currentList : list JsValue) (max : Z)
    (draws : list Q) (id : string) :
  generateId currentList max draws = Some id →
  ∃ random, random ∈ draws
    ∧ parseInt id = Num (inject_Z (randNum max random)).
Proof.
  induction draws as [|random draws IH]; [done|].
  simpl. destruct (includes _ _).
  - intros Hid. destruct (IH Hid) as (r & Hr & Hparse).
    exists r. split; [by apply list_elem_of_further|done].
  - intros [= <-]. exists random. split; [apply list_elem_of_here|].
    apply parseInt_Number_toString.
Qed.

Lemma allocated_id_reads_back_witness :
  ∃ random, random ∈ [1 # 2]
    ∧ parseInt "549999999" = Num (inject_Z (randNum default_max random)).
Proof.
  apply (allocated_id_reads_back [JString "549999999"] default_max [1 # 2]).
  vm_compute. reflexivity.
Defined.

(** ** Failed logins *)

(** X20: a login with an email and a password that are not empty fails in
    one way, "Invalid email or password", whether the email is no user or
    the password is not the user's, and leaves the store as it is. *)
Theorem login_failure_uniform (s : Store) (email password : string) :
  email ≠ EmptyString → password ≠ EmptyString →
  users s !! email = None
  ∨ (∃ u, users s !! email = Some u ∧ User.password u ≠ password) →
  login (Some email) (Some password) s
  = (s, Reject (InputError "Invalid email or password")).
Proof.
  intros He Hp [Hnone|(u & Hu & Hpw)].
  - unfold login. rewrite !provided_Some by done. by rewrite Hnone.
  - rewrite (login_known s email password u) by done.
    by apply String.eqb_neq in Hpw as ->.
Qed.

Lemma login_failure_uniform_witness :
  let s := memory (run false plain_run fresh_process) in
  login (Some "a@x.com") (Some "guess") s
  = (s, Reject (InputError "Invalid email or password"))
  ∧ login (Some "nobody@x.com") (Some "guess") s
    = (s, Reject (InputError "Invalid email or password")).
Proof.
  intros s. split.
  - apply (login_failure_uniform s "a@x.com" "guess"); [done|done|].
    right. exists (User.mk "Ann" "pw" true).
    split; [vm_compute; reflexivity|discriminate].
  - apply (login_failure_uniform s "nobody@x.com" "guess"); [done|done|].
    left. vm_compute. reflexivity.
Defined.

(** ** Creating and removing *)

(** X21: creating a listing and removing it right away gives back the store
    as it was, and so does making a booking and removing it, as long as the
    id that was drawn was not in use.  When it was in use, the record that
    was stored under it is gone after the removal. *)
Theorem create_then_remove (s : Store) (id : string) :
  (∀ title email address price thumbnail metadata draws,
     (addListing title email address price thumbnail metadata draws s).2
     = Resolve id →
     let s' := (removeListing id
                  (addListing title email address price thumbnail metadata
                     draws s).1).1 in
     listings s' !! id = None
     ∧ (listings s !! id = None → s' = s))
  ∧ (∀ owner dateRange totalPrice listingId draws,
       (makeNewBooking owner dateRange totalPrice listingId draws s).2
       = Resolve id →
       let s' := (removeBooking id
                    (makeNewBooking owner dateRange totalPrice listingId
                       draws s).1).1 in
       bookings s' !! id = None
       ∧ (bookings s !! id = None → s' = s)).
Proof.
  split.
  - intros title email address price thumbnail metadata draws.
    unfold removeListing. simpl.
    cases_of addListing. intros [= ->]. simpl.
    split; [apply lookup_delete_eq|]. intros Hfree.
    unfold set_listings. simpl. rewrite delete_insert_id by done.
    by destruct s.
  - intros owner dateRange totalPrice listingId draws.
    unfold removeBooking. simpl.
    cases_of makeNewBooking. intros [= ->]. simpl.
    split; [apply lookup_delete_eq|]. intros Hfree.
    unfold set_bookings. simpl. rewrite delete_insert_id by done.
    by destruct s.
Qed.

Lemma create_then_remove_witness :
  (removeListing "324999999" two_listings).1 = one_listing
  ∧ listings (removeListing "549999999" second_creation.1).1 !! "549999999"
    = None.
Proof.
  destruct (create_then_remove one_listing "324999999") as [Hfresh _].
  destruct (create_then_remove one_listing "549999999") as [Htaken _].
  split.
  - apply (Hfresh (Some "Den") "b@x.com" (Some (JString "2 Rd"))
             (Some (Num (inject_Z 80))) (Some (JString "u.png"))
             (Some (JObject "{}")) [1 # 4]); vm_compute; reflexivity.
  - apply (Htaken (Some "Den") "b@x.com" (Some (JString "2 Rd"))
             (Some (Num (inject_Z 80))) (Some (JString "u.png"))
             (Some (JObject "{}")) [1 # 2]). vm_compute. reflexivity.
Defined.
